(** * VoxGine: the Atlas entity-component-system core and the chunk store

    A shallow embedding of the headers
    - [Atlas/System.h]          ([ISystem]),
    - [Atlas/SystemManager.h]   ([FSystemManager]),
    - [Rendering/Chunk.h]       ([FChunk], its pool allocator),
    - [Math/Transform.inl]      ([FTransform] and its comparison operators),
    with the properties stated for them.

    Conventions.  A [std::bitset<BITSIZE>] is a natural number read in
    binary ([N.land] is [&], [N.lor] is [|]); a [std::vector] is a list in
    index order; a pointer that may be null is an [option]; a call that
    can trip an [assert] returns an [outcome]. *)

From Stdlib Require Import NArith Lia.
From stdpp Require Import base numbers list gmap.

(** ** Bitsets *)

Module Bitset.

(** [std::bitset<BITSIZE>]: bit [i] of the number is bit [i] of the set. *)
Definition bitset : Type := N.

(** The default constructor clears every bit. *)
Definition none : bitset := 0%N.

(** [operator&] and [operator|]. *)
Definition band (a b : bitset) : bitset := N.land a b.
Definition bor (a b : bitset) : bitset := N.lor a b.

(** [operator==]. *)
Definition eqb (a b : bitset) : bool := N.eqb a b.

(** A bitset of width [w] has no bit at position [w] or above. *)
Definition fits (w : N) (a : bitset) : Prop := forall i, (w <= i)%N -> N.testbit a i = false.

Lemma fits_none w : fits w none.
Proof. intros i _. apply N.bits_0. Qed.

Lemma fits_and w a b : fits w a -> fits w b -> fits w (band a b).
Proof.
  intros Ha Hb i Hi. unfold band. rewrite N.land_spec, (Ha i Hi). reflexivity.
Qed.

Lemma fits_or w a b : fits w a -> fits w b -> fits w (bor a b).
Proof.
  intros Ha Hb i Hi. unfold bor. rewrite N.lor_spec, (Ha i Hi), (Hb i Hi). reflexivity.
Qed.

Lemma eqb_eq a b : eqb a b = true <-> a = b.
Proof. apply N.eqb_eq. Qed.

Lemma bor_idem a b : bor (bor a b) b = bor a b.
Proof. unfold bor. rewrite <- N.lor_assoc, N.lor_diag. reflexivity. Qed.

Lemma bor_swap a b c : bor (bor a b) c = bor (bor a c) b.
Proof.
  unfold bor. rewrite <- !N.lor_assoc. f_equal. apply N.lor_comm.
Qed.

(** Every bit of [b] is a bit of [bor a b]. *)
Lemma band_bor_absorb a b : band (bor a b) b = b.
Proof.
  unfold band, bor. apply N.bits_inj. intros i.
  rewrite N.land_spec, N.lor_spec. destruct (N.testbit a i), (N.testbit b i); reflexivity.
Qed.

Lemma band_bor_keeps a b c : band (bor (bor a b) c) b = b.
Proof.
  unfold band, bor. apply N.bits_inj. intros i.
  rewrite N.land_spec, !N.lor_spec.
  destruct (N.testbit a i), (N.testbit b i), (N.testbit c i); reflexivity.
Qed.

End Bitset.

(** ** Game objects *)

Module GameObject.

(** [FGameObject::ID]. *)
Definition ID : Type := nat.

(** Modelled from the spec: [GameObject.h] is not part of the sources.  A
    game object is a stable integer identity together with the bitmask of
    the component types it currently owns. *)
Record FGameObject : Type := mkGameObject {
  GetID : ID;
  GetComponentBitMask : Bitset.bitset;
}.

End GameObject.

(** ** Systems: [ISystem] *)

Module System.

Import GameObject.

(** A reference to the owning [FWorld]; the world itself is opaque here. *)
Definition WorldRef : Type := nat.

(** [EComponent::Type], an enumeration ([ComponentTypes.h]). *)
Definition EComponentType : Type := nat.

(** The data members of [ISystem] (System.h, lines 93-96). *)
Record ISystem : Type := mkISystem {
  mWorld : WorldRef;
  mTypeBitMask : Bitset.bitset;
  mSystemBitMask : Bitset.bitset;
  mGameObjectIDs : list ID;
}.

(** [ISystem::ISystem(FWorld&)]: the bitsets and the vector are
    default-constructed. *)
Definition create (World : WorldRef) : ISystem :=
  {| mWorld := World;
     mTypeBitMask := Bitset.none;
     mSystemBitMask := Bitset.none;
     mGameObjectIDs := [] |}.

(** The inline accessors (System.h, lines 105-128). *)
Definition GetSystemBitMask (S : ISystem) : Bitset.bitset := mSystemBitMask S.
Definition GetTypeBitMask (S : ISystem) : Bitset.bitset := mTypeBitMask S.
Definition GetGameObjectIDs (S : ISystem) : list ID := mGameObjectIDs S.
Definition GetWorld (S : ISystem) : WorldRef := mWorld S.

Definition SetSystemBitMask (S : ISystem) (BitMask : Bitset.bitset) : ISystem :=
  {| mWorld := mWorld S;
     mTypeBitMask := mTypeBitMask S;
     mSystemBitMask := BitMask;
     mGameObjectIDs := mGameObjectIDs S |}.

Definition with_ids (S : ISystem) (IDs : list ID) : ISystem :=
  {| mWorld := mWorld S;
     mTypeBitMask := mTypeBitMask S;
     mSystemBitMask := mSystemBitMask S;
     mGameObjectIDs := IDs |}.

Section Registry.

(** [SComponentHandleManager::GetBitMask]: the bitmask registered for a
    component type.  [ComponentHandleManager.h] is not part of the
    sources, so the registry is a parameter. *)
Variable GetBitMask : EComponentType -> Bitset.bitset.

(** [ISystem::AddComponentType<Type>()] (System.h, lines 99-103):
    [mTypeBitMask |= SComponentHandleManager::GetBitMask(Type)]. *)
Definition AddComponentType (S : ISystem) (Type_ : EComponentType) : ISystem :=
  {| mWorld := mWorld S;
     mTypeBitMask := Bitset.bor (mTypeBitMask S) (GetBitMask Type_);
     mSystemBitMask := mSystemBitMask S;
     mGameObjectIDs := mGameObjectIDs S |}.

End Registry.

(** The interest test: [(componentMask & interestMask) == interestMask]. *)
Definition Interested (S : ISystem) (G : FGameObject) : bool :=
  Bitset.eqb (Bitset.band (GetComponentBitMask G) (mTypeBitMask S)) (mTypeBitMask S).

(** Whether the object's ID is in the tracked sequence. *)
Definition Tracked (S : ISystem) (G : FGameObject) : bool :=
  bool_decide (GetID G ∈ mGameObjectIDs S).

(** Modelled from the spec: [ISystem::RemoveObject] is declared in
    System.h and defined in a source file that is not available.  It
    removes the ID from the tracked sequence if present and does nothing
    otherwise; here the entry found first is erased and the order of the
    others is kept. *)
Definition RemoveObject (S : ISystem) (G : FGameObject) : ISystem :=
  match list_find (fun x => x = GetID G) (mGameObjectIDs S) with
  | Some (i, _) => with_ids S (delete i (mGameObjectIDs S))
  | None => S
  end.

(** Modelled from the spec: [ISystem::CheckInterest] is declared in
    System.h and defined in a source file that is not available.  If the
    object owns every component of the interest mask and its ID is not
    tracked yet, the ID is appended; if it does not and the ID is
    tracked, the ID is removed; only the tracked sequence changes. *)
Definition CheckInterest (S : ISystem) (G : FGameObject) : ISystem :=
  if Interested S G then
    if Tracked S G then S else with_ids S (mGameObjectIDs S ++ [GetID G])
  else
    if Tracked S G then RemoveObject S G else S.

(** *** What the operations do to the tracked sequence *)

Lemma NoDup_delete_lookup (l : list ID) (i : nat) (x : ID) :
  NoDup l -> l !! i = Some x -> x ∉ delete i l.
Proof.
  intros Hnd Hi. rewrite delete_take_drop.
  rewrite <- (take_drop_middle l i x Hi) in Hnd.
  apply NoDup_app in Hnd as (_ & Hdisj & Hnd).
  apply NoDup_cons in Hnd as [Hx _].
  intros [Hin | Hin]%elem_of_app; [| exact (Hx Hin)].
  apply (Hdisj x Hin). left.
Qed.

Lemma RemoveObject_ids S G :
  mGameObjectIDs (RemoveObject S G) = mGameObjectIDs S
  \/ exists i, mGameObjectIDs S !! i = Some (GetID G)
            /\ mGameObjectIDs (RemoveObject S G) = delete i (mGameObjectIDs S).
Proof.
  unfold RemoveObject.
  destruct (list_find _ _) as [[i y] |] eqn:Hfind; [| by left].
  apply list_find_Some in Hfind as (Hi & -> & _). right. by exists i.
Qed.

Lemma RemoveObject_NoDup S G :
  NoDup (mGameObjectIDs S) -> NoDup (mGameObjectIDs (RemoveObject S G)).
Proof.
  intros Hnd. destruct (RemoveObject_ids S G) as [-> | (i & _ & ->)]; [done |].
  eapply sublist_NoDup; [exact Hnd | apply sublist_delete].
Qed.

(** After [RemoveObject] the ID is gone, whatever the sequence held. *)
Lemma RemoveObject_absent S G :
  NoDup (mGameObjectIDs S) -> GetID G ∉ mGameObjectIDs (RemoveObject S G).
Proof.
  intros Hnd. unfold RemoveObject.
  destruct (list_find _ _) as [[i y] |] eqn:Hfind.
  - apply list_find_Some in Hfind as (Hi & -> & _). simpl.
    by apply NoDup_delete_lookup.
  - apply list_find_None in Hfind. intros Hin.
    rewrite Forall_forall in Hfind. by apply (Hfind _ Hin).
Qed.

(** Removing an ID that is not tracked changes nothing. *)
Lemma RemoveObject_untracked S G :
  GetID G ∉ mGameObjectIDs S -> RemoveObject S G = S.
Proof.
  intros Hnin. unfold RemoveObject.
  destruct (list_find _ _) as [[i y] |] eqn:Hfind; [| done].
  apply list_find_Some in Hfind as (Hi & -> & _).
  destruct Hnin. by eapply list_elem_of_lookup_2.
Qed.

Lemma CheckInterest_masks S G :
  mTypeBitMask (CheckInterest S G) = mTypeBitMask S
  /\ mSystemBitMask (CheckInterest S G) = mSystemBitMask S
  /\ mWorld (CheckInterest S G) = mWorld S.
Proof.
  unfold CheckInterest, RemoveObject.
  destruct (Interested S G), (Tracked S G); try done.
  by destruct (list_find _ _) as [[i y] |].
Qed.

Lemma CheckInterest_NoDup S G :
  NoDup (mGameObjectIDs S) -> NoDup (mGameObjectIDs (CheckInterest S G)).
Proof.
  intros Hnd. unfold CheckInterest, Tracked.
  destruct (Interested S G); case_bool_decide as Hin; try done.
  - simpl. apply NoDup_app. split_and!; [done | | apply NoDup_singleton].
    intros x Hx ->%list_elem_of_singleton. by apply Hin.
  - by apply RemoveObject_NoDup.
Qed.

Lemma CheckInterest_tracked S G :
  NoDup (mGameObjectIDs S) ->
  GetID G ∈ mGameObjectIDs (CheckInterest S G) <-> Interested S G = true.
Proof.
  intros Hnd. unfold CheckInterest, Tracked.
  destruct (Interested S G); case_bool_decide as Hin.
  - done.
  - simpl. split; [done | intros _]. apply elem_of_app. right. by left.
  - split; [| done]. intros Habs. by apply RemoveObject_absent in Habs.
  - split; [| done]. intros Habs. by destruct Hin.
Qed.

(** A second evaluation of the same object finds nothing left to do. *)
Lemma CheckInterest_twice S G :
  NoDup (mGameObjectIDs S) ->
  CheckInterest (CheckInterest S G) G = CheckInterest S G.
Proof.
  intros Hnd.
  pose proof (CheckInterest_tracked S G Hnd) as Htr.
  pose proof (CheckInterest_masks S G) as (Hmask & _ & _).
  set (S' := CheckInterest S G) in *.
  assert (Interested S' G = Interested S G) as Hint.
  { unfold Interested. by rewrite Hmask. }
  unfold CheckInterest at 1. rewrite Hint. unfold Tracked.
  destruct (Interested S G); case_bool_decide as Hin; try done.
  - destruct Hin. by apply Htr.
  - apply Htr in Hin. discriminate.
Qed.

(** *** States a system can be in *)

Section Reachability.

Variable GetBitMask : EComponentType -> Bitset.bitset.

(** Everything that can happen to an [ISystem] after its construction. *)
Inductive reachable : ISystem -> Prop :=
| reach_create World :
    reachable (create World)
| reach_AddComponentType S Type_ :
    reachable S -> reachable (AddComponentType GetBitMask S Type_)
| reach_SetSystemBitMask S BitMask :
    reachable S -> reachable (SetSystemBitMask S BitMask)
| reach_CheckInterest S G :
    reachable S -> reachable (CheckInterest S G)
| reach_RemoveObject S G :
    reachable S -> reachable (RemoveObject S G).

(** The tracked sequence never holds an ID twice. *)
Lemma reachable_NoDup S : reachable S -> NoDup (mGameObjectIDs S).
Proof.
  induction 1 as [W | S T _ IH | S B _ IH | S G _ IH | S G _ IH]; simpl.
  - apply NoDup_nil_2.
  - exact IH.
  - exact IH.
  - by apply CheckInterest_NoDup.
  - by apply RemoveObject_NoDup.
Qed.

(** C8: [AddComponentType] ORs the registered bit of the component type
    into the interest mask and leaves the system bit, the tracked
    sequence and the world reference alone.  Hence a call for a second
    type adds its bit and keeps the bits of the first, the order of two
    calls does not matter, and a repeated call for the same type changes
    nothing. *)
Theorem AddComponentType_ors_registered_bit (S : ISystem) (T U : EComponentType) :
  GetTypeBitMask (AddComponentType GetBitMask S T)
    = Bitset.bor (GetTypeBitMask S) (GetBitMask T)
  /\ GetSystemBitMask (AddComponentType GetBitMask S T) = GetSystemBitMask S
  /\ GetGameObjectIDs (AddComponentType GetBitMask S T) = GetGameObjectIDs S
  /\ GetWorld (AddComponentType GetBitMask S T) = GetWorld S
  /\ GetTypeBitMask (AddComponentType GetBitMask (AddComponentType GetBitMask S T) U)
       = Bitset.bor (Bitset.bor (GetTypeBitMask S) (GetBitMask T)) (GetBitMask U)
  /\ AddComponentType GetBitMask (AddComponentType GetBitMask S T) U
       = AddComponentType GetBitMask (AddComponentType GetBitMask S U) T
  /\ Bitset.band
       (GetTypeBitMask (AddComponentType GetBitMask (AddComponentType GetBitMask S T) U))
       (GetBitMask T) = GetBitMask T
  /\ AddComponentType GetBitMask (AddComponentType GetBitMask S T) T
       = AddComponentType GetBitMask S T.
Proof.
  unfold AddComponentType, GetTypeBitMask, GetSystemBitMask, GetGameObjectIDs, GetWorld.
  simpl. split_and!; try reflexivity.
  - f_equal. apply Bitset.bor_swap.
  - apply Bitset.band_bor_keeps.
  - f_equal. apply Bitset.bor_idem.
Qed.

(** C1: after [CheckInterest] has evaluated an object, the object's ID is
    in the system's tracked sequence exactly when the object's component
    mask [C] and the system's interest mask [I] satisfy [(C & I) == I];
    the evaluation leaves the interest mask as it was. *)
Theorem CheckInterest_tracks_iff_owns_all (S : ISystem) (G : FGameObject) :
  reachable S ->
  GetTypeBitMask (CheckInterest S G) = GetTypeBitMask S
  /\ (GetID G ∈ GetGameObjectIDs (CheckInterest S G)
      <-> Bitset.band (GetComponentBitMask G) (GetTypeBitMask S) = GetTypeBitMask S).
Proof.
  intros Hreach. split; [apply CheckInterest_masks |].
  unfold GetGameObjectIDs, GetTypeBitMask.
  rewrite (CheckInterest_tracked S G (reachable_NoDup S Hreach)).
  unfold Interested. apply Bitset.eqb_eq.
Qed.

End Reachability.

(** *** The width of the interest mask *)

Section Width.

(** [BITSIZE] ([Bitsize.h], not part of the sources) and a registry whose
    masks have that width. *)
Variable BITSIZE : N.
Variable GetBitMask : EComponentType -> Bitset.bitset.
Hypothesis GetBitMask_fits : forall Type_, Bitset.fits BITSIZE (GetBitMask Type_).

(** The interest mask never needs more than [BITSIZE] bits. *)
Lemma reachable_fits S :
  reachable GetBitMask S -> Bitset.fits BITSIZE (mTypeBitMask S).
Proof.
  induction 1 as [W | S T _ IH | S B _ IH | S G _ IH | S G _ IH].
  - apply Bitset.fits_none.
  - simpl. by apply Bitset.fits_or.
  - exact IH.
  - by rewrite (proj1 (CheckInterest_masks S G)).
  - unfold RemoveObject. by destruct (list_find _ _) as [[i y] |].
Qed.

End Width.

(** *** A registry to run the operations with *)

(** Modelled from the spec: [SComponentHandleManager] is not part of the
    sources.  Each component type owns one bit position; here the
    position is the enumerator's value. *)
Definition SequentialBit (Type_ : EComponentType) : Bitset.bitset :=
  N.shiftl 1 (N.of_nat Type_).

(** A system interested in the component bits 0 and 2. *)
Definition BitsZeroAndTwo : ISystem :=
  AddComponentType SequentialBit (AddComponentType SequentialBit (create 0) 0) 2.

(** An object owning the bits 0, 1 and 2, and one owning only 0 and 1. *)
Definition ObjectA : FGameObject := mkGameObject 1 7%N.
Definition ObjectB : FGameObject := mkGameObject 2 3%N.

Lemma CheckInterest_tracks_iff_owns_all_witness :
  GetTypeBitMask (CheckInterest BitsZeroAndTwo ObjectA) = GetTypeBitMask BitsZeroAndTwo
  /\ (GetID ObjectA ∈ GetGameObjectIDs (CheckInterest BitsZeroAndTwo ObjectA)
      <-> Bitset.band (GetComponentBitMask ObjectA) (GetTypeBitMask BitsZeroAndTwo)
          = GetTypeBitMask BitsZeroAndTwo).
Proof.
  apply (CheckInterest_tracks_iff_owns_all SequentialBit BitsZeroAndTwo ObjectA).
  unfold BitsZeroAndTwo. apply reach_AddComponentType, reach_AddComponentType, reach_create.
Defined.

(** The example of the specification: with interest in the bits 0 and 2,
    A (bits 0, 1, 2) is tracked and B (bits 0, 1) is not; once B gains
    bit 2 and is evaluated again, it is tracked as well. *)
Example interest_in_two_bits :
  let S1 := CheckInterest (CheckInterest BitsZeroAndTwo ObjectA) ObjectB in
  GetGameObjectIDs S1 = [1]
  /\ GetGameObjectIDs (CheckInterest S1 (mkGameObject 2 7%N)) = [1; 2]
  /\ GetGameObjectIDs (CheckInterest (CheckInterest S1 (mkGameObject 2 7%N)) (mkGameObject 1 6%N)) = [2].
Proof. vm_compute. done. Qed.

(** A system that requires no component tracks every object it is shown;
    a system that requires one tracks the owners of that one. *)
Example interest_in_no_bit :
  GetGameObjectIDs (CheckInterest (create 0) (mkGameObject 5 0%N)) = [5].
Proof. reflexivity. Qed.

Example interest_in_one_bit :
  let S1 := AddComponentType SequentialBit (create 0) 1 in
  GetGameObjectIDs (CheckInterest (CheckInterest S1 ObjectA) (mkGameObject 3 5%N)) = [1].
Proof. vm_compute. done. Qed.

End System.

(** ** The system manager: [FSystemManager] *)

Module SystemManager.

Import GameObject.

(** The [std::type_info] of a concrete system class, as [typeid] yields it. *)
Definition TypeInfo : Type := nat.

(** What a [std::unique_ptr<ISystem>] of the manager owns: an object of a
    concrete system class, seen through its dynamic type and its
    [ISystem] base. *)
Record SystemObject : Type := mkSystemObject {
  DynamicType : TypeInfo;
  Base : System.ISystem;
}.

(** The data members of [FSystemManager] (SystemManager.h, lines 98-100). *)
Record FSystemManager : Type := mkSystemManager {
  mWorld : System.WorldRef;
  mSystems : list SystemObject;
}.

(** [FSystemManager::FSystemManager(FWorld&)]: the vector starts empty. *)
Definition create (World : System.WorldRef) : FSystemManager :=
  {| mWorld := World; mSystems := [] |}.

(** The result of a call that checks an [assert] on its way. *)
Inductive outcome (A : Type) : Type :=
| Returned (a : A)
| AssertionFailed.
Arguments Returned {A} a.
Arguments AssertionFailed {A}.

(** How many registered systems have the dynamic type [T]. *)
Definition count_type (T : TypeInfo) (M : FSystemManager) : nat :=
  length (filter (fun S => DynamicType S = T) (mSystems M)).

(** At most one instance of each concrete system type. *)
Definition SingleInstance (M : FSystemManager) : Prop :=
  forall T, count_type T M <= 1.

Definition Registered (T : TypeInfo) (M : FSystemManager) : Prop :=
  exists S, S ∈ mSystems M /\ DynamicType S = T.

Section Collaborators.

(** The component registry, as for [System.AddComponentType]. *)
Variable GetBitMask : System.EComponentType -> Bitset.bitset.

(** [SSystemBitManager::GetBitMaskFor]: the identity bit the system
    registry holds for a system's class.  [SystemBitManager.h] is not
    part of the sources, so the registry is a parameter. *)
Variable GetBitMaskFor : TypeInfo -> Bitset.bitset.

(** The component types the constructor of a concrete system class adds.
    A derived class reaches the private members of [ISystem] only through
    the protected [AddComponentType]. *)
Variable Components : TypeInfo -> list System.EComponentType.

(** [new T(mWorld)]. *)
Definition construct (T : TypeInfo) (World : System.WorldRef) : SystemObject :=
  {| DynamicType := T;
     Base := foldl (System.AddComponentType GetBitMask) (System.create World) (Components T) |}.

(** [FSystemManager::AddSystem<T>()] (SystemManager.h, lines 103-137; the
    overloads with constructor arguments treat the manager alike):
    construct, set the system bit, push back, return the reference. *)
Definition AddSystem (M : FSystemManager) (T : TypeInfo) : FSystemManager * SystemObject :=
  let RawSystem := construct T (mWorld M) in
  let RawSystem :=
    {| DynamicType := DynamicType RawSystem;
       Base := System.SetSystemBitMask (Base RawSystem) (GetBitMaskFor T) |} in
  ({| mWorld := mWorld M; mSystems := mSystems M ++ [RawSystem] |}, RawSystem).

(** Several [AddSystem] calls in a row, the references dropped. *)
Definition AddSystems (M : FSystemManager) (Ts : list TypeInfo) : FSystemManager :=
  foldl (fun M T => fst (AddSystem M T)) M Ts.

End Collaborators.

(** [FSystemManager::GetSystem<T>()] (SystemManager.h, lines 144-161): the
    first system whose [typeid] is that of [T], a null pointer if there is
    none, and then [assert(dynamic_cast<T*>(SystemPtr))].  [NDEBUG] tells
    whether assertions are compiled out. *)
Definition GetSystem (NDEBUG : bool) (M : FSystemManager) (T : TypeInfo)
  : outcome (option SystemObject) :=
  let SystemPtr := snd <$> list_find (fun S => DynamicType S = T) (mSystems M) in
  match SystemPtr with
  | Some Found => Returned (Some Found)
  | None => if NDEBUG then Returned None else AssertionFailed
  end.

(** [FSystemManager::GetSystem(Index)] (SystemManager.h, lines 163-166):
    [mSystems[Index].get()], with no test on [Index].  [None] is the
    access past the end of the vector. *)
Definition GetSystemAt (M : FSystemManager) (Index : nat) : option SystemObject :=
  mSystems M !! Index.

(** [FSystemManager::RemoveSystem(Index)] (SystemManager.h, lines 139-142):
    [mSystems.erase(mSystems.begin() + Index)].  [None] is the erasure at
    or past the end. *)
Definition RemoveSystemAt (M : FSystemManager) (Index : nat) : option FSystemManager :=
  if decide (Index < length (mSystems M))
  then Some {| mWorld := mWorld M; mSystems := delete Index (mSystems M) |}
  else None.

(** [RemoveSystem<Type>()] and [Start()] are left out: the first compares
    [typeid] of a [std::unique_ptr] taken by value with a type name, which
    no instantiation accepts, and the second is only declared. *)

(** A call of [CheckInterest] on one system object. *)
Definition notify (G : FGameObject) (S : SystemObject) : SystemObject :=
  {| DynamicType := DynamicType S; Base := System.CheckInterest (Base S) G |}.

(** Modelled from the spec: [FSystemManager::CheckInterest] is declared
    in SystemManager.h and defined in a source file that is not
    available.  It forwards the object to the [CheckInterest] of every
    registered system, in registration order. *)
Definition CheckInterest (M : FSystemManager) (G : FGameObject) : FSystemManager :=
  {| mWorld := mWorld M; mSystems := notify G <$> mSystems M |}.

(** A call of [CheckInterest] through a reference that [AddSystem] or
    [GetSystem] handed out. *)
Definition CheckInterestAt (M : FSystemManager) (Index : nat) (G : FGameObject) : FSystemManager :=
  {| mWorld := mWorld M; mSystems := alter (notify G) Index (mSystems M) |}.

(** No system of the manager tracks an ID twice. *)
Definition TrackedOnce (M : FSystemManager) : Prop :=
  Forall (fun S => NoDup (System.mGameObjectIDs (Base S))) (mSystems M).

(** *** Lookup by type *)

Lemma Registered_count (T : TypeInfo) (M : FSystemManager) :
  Registered T M <-> 0 < count_type T M.
Proof.
  unfold Registered, count_type. split.
  - intros (Sys & Hin & HT).
    assert (Sys ∈ filter (fun S => DynamicType S = T) (mSystems M)) as Hf
      by (by apply list_elem_of_filter).
    destruct (filter _ _); [by apply not_elem_of_nil in Hf | simpl; lia].
  - intros Hlen.
    destruct (filter _ _) as [| Sys k] eqn:Hf; [simpl in Hlen; lia |].
    assert (Sys ∈ filter (fun S => DynamicType S = T) (mSystems M)) as Hin
      by (rewrite Hf; left).
    apply list_elem_of_filter in Hin as [HT Hin]. by exists Sys.
Qed.

Lemma GetSystem_found (NDEBUG : bool) (M : FSystemManager) (T : TypeInfo) :
  Registered T M ->
  exists Index Sys,
    GetSystem NDEBUG M T = Returned (Some Sys)
    /\ mSystems M !! Index = Some Sys
    /\ DynamicType Sys = T
    /\ forall j Other, j < Index -> mSystems M !! j = Some Other -> DynamicType Other <> T.
Proof.
  intros (Sys & Hin & HT). unfold GetSystem.
  destruct (list_find_elem_of (fun S => DynamicType S = T) _ Sys Hin HT) as [[i Sys'] Hfind].
  rewrite Hfind. simpl.
  apply list_find_Some in Hfind as (Hi & HT' & Hfirst).
  exists i, Sys'. split_and!; try done.
  intros j Other Hj Hlook. by apply (Hfirst j Other).
Qed.

Lemma GetSystem_missing (NDEBUG : bool) (M : FSystemManager) (T : TypeInfo) :
  ~ Registered T M ->
  GetSystem NDEBUG M T = if NDEBUG then Returned None else AssertionFailed.
Proof.
  intros Hnot. unfold GetSystem.
  destruct (list_find _ _) as [[i Sys] |] eqn:Hfind; [| done].
  apply list_find_Some in Hfind as (Hi & HT & _).
  destruct Hnot. exists Sys. split; [| done]. by eapply list_elem_of_lookup_2.
Qed.

(** *** Forwarding the interest check *)

Lemma notify_twice (G : FGameObject) (Sys : SystemObject) :
  NoDup (System.mGameObjectIDs (Base Sys)) ->
  notify G (notify G Sys) = notify G Sys.
Proof.
  intros Hnd. unfold notify. simpl. f_equal. by apply System.CheckInterest_twice.
Qed.

Lemma notify_NoDup (G : FGameObject) (Sys : SystemObject) :
  NoDup (System.mGameObjectIDs (Base Sys)) ->
  NoDup (System.mGameObjectIDs (Base (notify G Sys))).
Proof. intros Hnd. simpl. by apply System.CheckInterest_NoDup. Qed.

Lemma CheckInterest_TrackedOnce (M : FSystemManager) (G : FGameObject) :
  TrackedOnce M -> TrackedOnce (CheckInterest M G).
Proof.
  unfold TrackedOnce, CheckInterest. simpl. intros Hall.
  apply Forall_fmap. eapply Forall_impl; [exact Hall |].
  intros Sys Hnd. by apply notify_NoDup.
Qed.

Lemma forward_twice (M : FSystemManager) (G : FGameObject) :
  TrackedOnce M -> CheckInterest (CheckInterest M G) G = CheckInterest M G.
Proof.
  unfold TrackedOnce, CheckInterest. simpl. intros Hall. f_equal.
  induction Hall as [| Sys l Hnd _ IH]; [done |].
  rewrite !fmap_cons. rewrite IH. f_equal. by apply notify_twice.
Qed.

(** *** States a manager can be in *)

Section Reachability.

Variable GetBitMask : System.EComponentType -> Bitset.bitset.
Variable GetBitMaskFor : TypeInfo -> Bitset.bitset.
Variable Components : TypeInfo -> list System.EComponentType.

(** Everything a caller can do to a manager after its construction. *)
Inductive reachable : FSystemManager -> Prop :=
| reach_create World :
    reachable (create World)
| reach_AddSystem M T :
    reachable M -> reachable (fst (AddSystem GetBitMask GetBitMaskFor Components M T))
| reach_RemoveSystemAt M Index M' :
    reachable M -> RemoveSystemAt M Index = Some M' -> reachable M'
| reach_CheckInterest M G :
    reachable M -> reachable (CheckInterest M G)
| reach_CheckInterestAt M Index G :
    reachable M -> reachable (CheckInterestAt M Index G).

Lemma AddComponentTypes_ids (Ts : list System.EComponentType) (Sys : System.ISystem) :
  System.mGameObjectIDs (foldl (System.AddComponentType GetBitMask) Sys Ts)
  = System.mGameObjectIDs Sys.
Proof.
  revert Sys. induction Ts as [| T Ts IH]; intros Sys; [done |].
  simpl. by rewrite IH.
Qed.

Lemma AddSystem_tracks_nothing (M : FSystemManager) (T : TypeInfo) :
  System.mGameObjectIDs (Base (snd (AddSystem GetBitMask GetBitMaskFor Components M T))) = [].
Proof. simpl. by rewrite AddComponentTypes_ids. Qed.

Lemma reachable_TrackedOnce (M : FSystemManager) : reachable M -> TrackedOnce M.
Proof.
  unfold TrackedOnce.
  induction 1 as [W | M T _ IH | M i M' _ IH Hrem | M G _ IH | M i G _ IH].
  - constructor.
  - simpl. apply Forall_app. split; [exact IH |].
    constructor; [| constructor].
    simpl. rewrite AddComponentTypes_ids. apply NoDup_nil_2.
  - unfold RemoveSystemAt in Hrem. case_decide; [| done].
    injection Hrem as <-. simpl. by apply Forall_delete.
  - by apply CheckInterest_TrackedOnce.
  - simpl. apply Forall_alter; [exact IH |].
    intros Sys _ Hnd. by apply notify_NoDup.
Qed.

(** C2: for a manager in any state it can reach, forwarding the same
    object (same ID, same component mask) a second time leaves every
    system exactly as the first call left it, and no system tracks an ID
    twice; the call reaches the system at every position, in
    registration order. *)
Theorem CheckInterest_repeated_is_noop (M : FSystemManager) (G : FGameObject) :
  reachable M ->
  CheckInterest (CheckInterest M G) G = CheckInterest M G
  /\ TrackedOnce (CheckInterest M G)
  /\ forall Index,
       Base <$> GetSystemAt (CheckInterest M G) Index
       = (fun Sys => System.CheckInterest (Base Sys) G) <$> GetSystemAt M Index.
Proof.
  intros Hreach. pose proof (reachable_TrackedOnce M Hreach) as Hinv.
  split_and!.
  - by apply forward_twice.
  - by apply CheckInterest_TrackedOnce.
  - intros Index. unfold GetSystemAt, CheckInterest. simpl.
    rewrite list_lookup_fmap. by destruct (mSystems M !! Index).
Qed.

(** C3 (as the code has it): [AddSystem<T>] constructs one instance of
    dynamic type [T], gives it the bit the system registry holds for
    [T], appends it to the system sequence and returns a reference to
    it, which is the element at the last position.  It does so whether
    or not a system of type [T] is registered already: the number of
    systems of type [T] always grows by one. *)
Theorem AddSystem_appends_one_instance (M : FSystemManager) (T : TypeInfo) :
  mSystems (fst (AddSystem GetBitMask GetBitMaskFor Components M T))
    = mSystems M ++ [snd (AddSystem GetBitMask GetBitMaskFor Components M T)]
  /\ DynamicType (snd (AddSystem GetBitMask GetBitMaskFor Components M T)) = T
  /\ System.GetSystemBitMask (Base (snd (AddSystem GetBitMask GetBitMaskFor Components M T)))
       = GetBitMaskFor T
  /\ System.GetGameObjectIDs (Base (snd (AddSystem GetBitMask GetBitMaskFor Components M T))) = []
  /\ GetSystemAt (fst (AddSystem GetBitMask GetBitMaskFor Components M T)) (length (mSystems M))
       = Some (snd (AddSystem GetBitMask GetBitMaskFor Components M T))
  /\ count_type T (fst (AddSystem GetBitMask GetBitMaskFor Components M T))
       = S (count_type T M).
Proof.
  split_and!.
  - reflexivity.
  - reflexivity.
  - reflexivity.
  - apply AddSystem_tracks_nothing.
  - unfold GetSystemAt. simpl. by apply list_lookup_middle.
  - unfold count_type. simpl. rewrite filter_app, length_app.
    rewrite filter_cons_True by done. simpl. lia.
Qed.

End Reachability.

(** C4 (as the code has it): when no system of the requested type is
    registered, [GetSystem<T>] fails its assertion, and returns a null
    pointer only where assertions are compiled out; when one is
    registered, it returns the first one in the system sequence. *)
Theorem GetSystem_asserts_presence (NDEBUG : bool) (M : FSystemManager) (T : TypeInfo) :
  (~ Registered T M ->
     GetSystem NDEBUG M T = if NDEBUG then Returned None else AssertionFailed)
  /\ (Registered T M ->
      exists Index Sys,
        GetSystem NDEBUG M T = Returned (Some Sys)
        /\ GetSystemAt M Index = Some Sys
        /\ DynamicType Sys = T
        /\ forall j Other, j < Index -> GetSystemAt M j = Some Other -> DynamicType Other <> T).
Proof.
  split; [apply GetSystem_missing | apply GetSystem_found].
Qed.

(** C9: [GetSystem(Index)] is a bare positional access.  Below the number
    of registered systems it yields the system at that position, which
    after a run of [AddSystem] calls is the one the call of that rank
    added; at or above that number it has no result, and a caller can
    get there, since nothing guards the index. *)
Theorem GetSystemAt_unguarded
    (GetBitMask : System.EComponentType -> Bitset.bitset)
    (GetBitMaskFor : TypeInfo -> Bitset.bitset)
    (Components : TypeInfo -> list System.EComponentType)
    (M : FSystemManager) (Index : nat) :
  (Index < length (mSystems M) -> is_Some (GetSystemAt M Index))
  /\ (length (mSystems M) <= Index -> GetSystemAt M Index = None)
  /\ (forall World Ts,
        DynamicType <$>
          GetSystemAt (AddSystems GetBitMask GetBitMaskFor Components (create World) Ts) Index
        = Ts !! Index)
  /\ (forall World, GetSystemAt (create World) Index = None).
Proof.
  unfold GetSystemAt. split_and!.
  - apply lookup_lt_is_Some_2.
  - apply lookup_ge_None_2.
  - intros World Ts. rewrite <- list_lookup_fmap. f_equal.
    unfold AddSystems.
    change Ts with ((DynamicType <$> mSystems (create World)) ++ Ts) at 2.
    generalize (create World) as M0. clear M.
    induction Ts as [| T Ts IH]; intros M0; simpl.
    + by rewrite app_nil_r.
    + rewrite IH. simpl. rewrite fmap_app. simpl. by rewrite <- app_assoc.
  - done.
Qed.

(** *** A small world to run the manager in *)

(** Modelled from the spec: the system registry hands out one bit per
    system type, in its own bit space; here the position is the type's
    number. *)
Definition SystemBit (T : TypeInfo) : Bitset.bitset := N.shiftl 1 (N.of_nat T).

(** Class 0 works on the components 0 and 2, class 1 on component 1, and
    every other class on none. *)
Definition ExampleComponents (T : TypeInfo) : list System.EComponentType :=
  match T with
  | 0 => [0; 2]
  | 1 => [1]
  | _ => []
  end.

Definition ExampleAdd (M : FSystemManager) (T : TypeInfo) : FSystemManager * SystemObject :=
  AddSystem System.SequentialBit SystemBit ExampleComponents M T.

Definition TwoSystems : FSystemManager := fst (ExampleAdd (fst (ExampleAdd (create 0) 0)) 1).

Lemma CheckInterest_repeated_is_noop_witness :
  CheckInterest (CheckInterest TwoSystems System.ObjectA) System.ObjectA
    = CheckInterest TwoSystems System.ObjectA
  /\ TrackedOnce (CheckInterest TwoSystems System.ObjectA)
  /\ forall Index,
       Base <$> GetSystemAt (CheckInterest TwoSystems System.ObjectA) Index
       = (fun Sys => System.CheckInterest (Base Sys) System.ObjectA) <$> GetSystemAt TwoSystems Index.
Proof.
  apply (CheckInterest_repeated_is_noop System.SequentialBit SystemBit ExampleComponents).
  unfold TwoSystems, ExampleAdd. apply reach_AddSystem, reach_AddSystem, reach_create.
Defined.

(** Both systems see the object; each keeps or skips it by its own mask. *)
Example forwarding_to_two_systems :
  (System.GetGameObjectIDs ∘ Base) <$> mSystems (CheckInterest (CheckInterest TwoSystems System.ObjectA) System.ObjectB)
  = [[1]; [1; 2]].
Proof. vm_compute. done. Qed.

(** The claim C3 makes fails here: a second [AddSystem] for a type that
    is registered already is carried out like the first, and leaves two
    instances of that type. *)
Lemma AddSystem_accepts_second_instance :
  Registered 0 (fst (ExampleAdd (create 0) 0))
  /\ SingleInstance (fst (ExampleAdd (create 0) 0))
  /\ mSystems (fst (ExampleAdd (fst (ExampleAdd (create 0) 0)) 0))
       = mSystems (fst (ExampleAdd (create 0) 0)) ++ [snd (ExampleAdd (fst (ExampleAdd (create 0) 0)) 0)]
  /\ count_type 0 (fst (ExampleAdd (fst (ExampleAdd (create 0) 0)) 0)) = 2
  /\ ~ SingleInstance (fst (ExampleAdd (fst (ExampleAdd (create 0) 0)) 0)).
Proof.
  split_and!.
  - eexists. split; [left | reflexivity].
  - intros T. unfold count_type. simpl.
    destruct (decide (0 = T)) as [<- | Hne].
    + rewrite filter_cons_True by done. simpl. lia.
    + rewrite filter_cons_False by done. simpl. lia.
  - reflexivity.
  - reflexivity.
  - intros Hsingle. specialize (Hsingle 0). vm_compute in Hsingle. lia.
Qed.

(** The claim C4 makes fails here: asking an empty manager for a system
    trips the assertion; no "not found" value comes back. *)
Lemma GetSystem_absent_fails_assertion :
  ~ Registered 0 (create 0)
  /\ GetSystem false (create 0) 0 = AssertionFailed
  /\ GetSystem false (create 0) 0 <> Returned None.
Proof.
  split_and!.
  - intros (Sys & Hin & _). by apply not_elem_of_nil in Hin.
  - reflexivity.
  - discriminate.
Qed.

Lemma GetSystem_asserts_presence_witness :
  GetSystem false (create 0) 0 = AssertionFailed
  /\ exists Index Sys,
       GetSystem false TwoSystems 1 = Returned (Some Sys)
       /\ GetSystemAt TwoSystems Index = Some Sys
       /\ DynamicType Sys = 1
       /\ forall j Other, j < Index -> GetSystemAt TwoSystems j = Some Other -> DynamicType Other <> 1.
Proof.
  split.
  - apply (proj1 (GetSystem_asserts_presence false (create 0) 0)).
    intros (Sys & Hin & _). by apply not_elem_of_nil in Hin.
  - apply (proj2 (GetSystem_asserts_presence false TwoSystems 1)).
    eexists. split; [right; left | reflexivity].
Defined.

Lemma GetSystemAt_unguarded_witness :
  is_Some (GetSystemAt TwoSystems 1) /\ GetSystemAt TwoSystems 2 = None.
Proof.
  split.
  - apply (proj1 (GetSystemAt_unguarded System.SequentialBit SystemBit ExampleComponents TwoSystems 1)).
    simpl. lia.
  - apply (proj1 (proj2 (GetSystemAt_unguarded System.SequentialBit SystemBit ExampleComponents TwoSystems 2))).
    simpl. lia.
Defined.

End SystemManager.

(** ** The pool allocator: [FPoolAllocator] *)

Module PoolAllocator.

(** A block of the arena, named by its slot. *)
Definition Handle : Type := nat.

(** Modelled from the spec: [Memory/PoolAllocator.h] is not part of the
    sources.  The allocator is a fixed number of blocks of one size in a
    single arena, a free list of the slots that are available, and the
    set of the slots that are handed out, kept to guard [Free].  The size
    of a block plays no part in the bookkeeping and is left out. *)
Record FPoolAllocator : Type := mkPool {
  Capacity : nat;
  FreeList : list Handle;
  Allocated : gset Handle;
}.

(** Modelled from the spec: a new pool has every slot of its arena on the
    free list. *)
Definition create (capacity : nat) : FPoolAllocator :=
  {| Capacity := capacity; FreeList := seq 0 capacity; Allocated := ∅ |}.

(** Modelled from the spec: [Allocate] hands out the slot on top of the
    free list, and fails with exhaustion ([None]) when the list is empty;
    there is no other source of blocks. *)
Definition Allocate (P : FPoolAllocator) : option (Handle * FPoolAllocator) :=
  match FreeList P with
  | [] => None
  | h :: rest =>
      Some (h, {| Capacity := Capacity P;
                  FreeList := rest;
                  Allocated := {[h]} ∪ Allocated P |})
  end.

(** Modelled from the spec: [Free] puts a slot that is handed out back on
    the free list, and fails ([None]) for any other handle. *)
Definition Free (P : FPoolAllocator) (h : Handle) : option FPoolAllocator :=
  if decide (h ∈ Allocated P)
  then Some {| Capacity := Capacity P;
               FreeList := h :: FreeList P;
               Allocated := Allocated P ∖ {[h]} |}
  else None.

(** [n] calls of [Allocate] in a row; [None] as soon as one of them fails. *)
Fixpoint AllocateN (n : nat) (P : FPoolAllocator) : option (list Handle * FPoolAllocator) :=
  match n with
  | 0 => Some ([], P)
  | S n' =>
      match Allocate P with
      | None => None
      | Some (h, P') =>
          match AllocateN n' P' with
          | None => None
          | Some (hs, P'') => Some (h :: hs, P'')
          end
      end
  end.

(** The states of a pool of the given capacity. *)
Inductive reachable (capacity : nat) : FPoolAllocator -> Prop :=
| reach_create :
    reachable capacity (create capacity)
| reach_Allocate P h P' :
    reachable capacity P -> Allocate P = Some (h, P') -> reachable capacity P'
| reach_Free P h P' :
    reachable capacity P -> Free P h = Some P' -> reachable capacity P'.

(** The bookkeeping is consistent: no slot is free twice, no slot is both
    free and handed out, every slot lies in the arena, and the two
    collections together are the whole arena. *)
Record consistent (P : FPoolAllocator) : Prop := mkConsistent {
  free_once : NoDup (FreeList P);
  free_or_live : forall h, h ∈ FreeList P -> h ∉ Allocated P;
  free_in_arena : forall h, h ∈ FreeList P -> h < Capacity P;
  live_in_arena : forall h, h ∈ Allocated P -> h < Capacity P;
  all_accounted : length (FreeList P) + size (Allocated P) = Capacity P;
}.

Lemma create_consistent (capacity : nat) : consistent (create capacity).
Proof.
  split; cbn [Capacity FreeList Allocated create].
  - apply NoDup_seq.
  - intros h _. apply not_elem_of_empty.
  - intros h Hh. apply elem_of_seq in Hh. lia.
  - intros h Hh. by apply not_elem_of_empty in Hh.
  - rewrite length_seq, size_empty. lia.
Qed.

Lemma Allocate_consistent (P P' : FPoolAllocator) (h : Handle) :
  consistent P -> Allocate P = Some (h, P') -> consistent P'.
Proof.
  intros [Hnd Hdisj Hfree Hlive Hsum]. unfold Allocate.
  destruct (FreeList P) as [| h0 rest] eqn:Hfl; [done |].
  intros [= <- <-]. apply NoDup_cons in Hnd as [Hh0 Hnd].
  assert (h0 ∉ Allocated P) as Hfresh by (apply Hdisj; left).
  split; cbn [Capacity FreeList Allocated create].
  - exact Hnd.
  - intros h Hh [->%elem_of_singleton | Hin]%elem_of_union.
    + by apply Hh0.
    + apply (Hdisj h); [by right | done].
  - intros h Hh. apply Hfree. by right.
  - intros h [->%elem_of_singleton | Hin]%elem_of_union.
    + apply Hfree. left.
    + by apply Hlive.
  - rewrite size_union by set_solver. rewrite size_singleton.
    cbn [length] in Hsum. lia.
Qed.

Lemma Free_consistent (P P' : FPoolAllocator) (h : Handle) :
  consistent P -> Free P h = Some P' -> consistent P'.
Proof.
  intros [Hnd Hdisj Hfree Hlive Hsum]. unfold Free.
  case_decide as Hin; [| done]. intros [= <-].
  split; cbn [Capacity FreeList Allocated create].
  - apply NoDup_cons. split; [| done]. intros Hh. by apply (Hdisj h).
  - intros h' [-> | Hh']%elem_of_cons.
    + intros [_ Hnot]%elem_of_difference. apply Hnot. by apply elem_of_singleton.
    + intros [Hin' _]%elem_of_difference. by apply (Hdisj h').
  - intros h' [-> | Hh']%elem_of_cons; [by apply Hlive | by apply Hfree].
  - intros h' [Hin' _]%elem_of_difference. by apply Hlive.
  - rewrite size_difference by set_solver. rewrite size_singleton.
    assert (size (Allocated P) <> 0) as Hpos.
    { intros Hz. apply size_empty_inv in Hz. set_solver. }
    cbn [length]. lia.
Qed.

Lemma reachable_consistent (capacity : nat) (P : FPoolAllocator) :
  reachable capacity P -> consistent P /\ Capacity P = capacity.
Proof.
  induction 1 as [| P h P' _ [IH Hcap] Halloc | P h P' _ [IH Hcap] Hfree].
  - split; [apply create_consistent | done].
  - split; [by eapply Allocate_consistent |].
    unfold Allocate in Halloc. destruct (FreeList P); [done |].
    by injection Halloc as _ <-.
  - split; [by eapply Free_consistent |].
    unfold Free in Hfree. case_decide; [| done]. by injection Hfree as <-.
Qed.

(** As long as the free list is long enough, [n] allocations succeed and
    hand out its first [n] slots in order. *)
Lemma AllocateN_enough (n : nat) (P : FPoolAllocator) :
  n <= length (FreeList P) ->
  exists P',
    AllocateN n P = Some (take n (FreeList P), P')
    /\ FreeList P' = drop n (FreeList P)
    /\ Capacity P' = Capacity P
    /\ forall h, h ∈ Allocated P' <-> h ∈ take n (FreeList P) \/ h ∈ Allocated P.
Proof.
  revert P. induction n as [| n IH]; intros P Hlen.
  - exists P. split_and!; try done.
    intros h. rewrite take_0. split; [by right |].
    by intros [?%not_elem_of_nil | ?].
  - destruct (FreeList P) as [| h0 rest] eqn:Hfl; [simpl in Hlen; lia |].
    set (P1 := {| Capacity := Capacity P; FreeList := rest;
                  Allocated := {[h0]} ∪ Allocated P |}).
    destruct (IH P1) as (P' & Hrun & Hfree & Hcap & Hlive).
    { simpl in *. lia. }
    exists P'. cbn [AllocateN]. unfold Allocate. rewrite Hfl.
    fold P1. rewrite Hrun. split_and!; try done.
    intros h. rewrite Hlive. cbn [P1 Allocated FreeList take].
    rewrite elem_of_union, elem_of_singleton, elem_of_cons. tauto.
Qed.

(** One allocation too many fails, and the pool stays as it was. *)
Lemma Allocate_exhausted (P : FPoolAllocator) :
  FreeList P = [] -> Allocate P = None.
Proof. intros Hfl. unfold Allocate. by rewrite Hfl. Qed.

(** C5: in a pool of any capacity, the first [capacity] allocations
    succeed and hand out distinct blocks of the arena, the next one fails
    with exhaustion; after one [Free] of a live block one more allocation
    succeeds and the one after it fails again; and in every state the
    pool can reach, the live blocks are blocks of the arena and at most
    [capacity] in number. *)
Theorem Allocate_bounded_by_capacity (capacity : nat) :
  exists Blocks Full,
    AllocateN capacity (create capacity) = Some (Blocks, Full)
    /\ length Blocks = capacity
    /\ NoDup Blocks
    /\ Allocate Full = None
    /\ (forall h, h ∈ Blocks ->
          exists Freed Again Full',
            Free Full h = Some Freed
            /\ Allocate Freed = Some (Again, Full')
            /\ Allocate Full' = None)
    /\ (forall P, reachable capacity P ->
          size (Allocated P) <= capacity
          /\ forall h, h ∈ Allocated P -> h < capacity).
Proof.
  destruct (AllocateN_enough capacity (create capacity)) as (Full & Hrun & Hfree & _ & Hlive).
  { cbn [create FreeList]. by rewrite length_seq. }
  cbn [create FreeList Allocated] in *.
  rewrite take_ge in * by (by rewrite length_seq).
  rewrite drop_ge in Hfree by (by rewrite length_seq).
  exists (seq 0 capacity), Full. split_and!.
  - exact Hrun.
  - apply length_seq.
  - apply NoDup_seq.
  - by apply Allocate_exhausted.
  - intros h Hh.
    assert (h ∈ Allocated Full) as Hin by (apply Hlive; by left).
    unfold Free. rewrite decide_True by done.
    eexists _, h, _. split; [reflexivity |].
    unfold Allocate. cbn [FreeList]. rewrite Hfree. split; [reflexivity |].
    reflexivity.
  - intros P Hreach.
    apply reachable_consistent in Hreach as [[_ _ _ Hin Hsum] Hcap].
    split; [lia |]. intros h Hh. rewrite <- Hcap. by apply Hin.
Qed.

End PoolAllocator.

(** ** Chunks: [FChunk] *)

Module Chunk.

Import PoolAllocator.

(** The dimensions of a chunk (Chunk.h, lines 19-20). *)
Definition CHUNK_SIZE : nat := 16.
Definition BLOCKS_PER_CHUNK : nat := CHUNK_SIZE * CHUNK_SIZE * CHUNK_SIZE.

(** [FChunk::ChunkAllocator] (Chunk.h, line 21): a pool of 500 blocks, each
    of the size of one chunk's voxel array. *)
Definition ChunkAllocator : FPoolAllocator := create 500.

(** Modelled from the spec: [Block.h] is not part of the sources.  A voxel
    record is active or not; the default record is inactive (air). *)
Record FBlock : Type := mkBlock { IsActive : bool }.

Definition DefaultBlock : FBlock := {| IsActive := false |}.

(** The pool together with what the blocks of its arena hold, each block
    read as an array of voxel records.  A block keeps what was written to
    it when it goes back to the pool. *)
Record Storage : Type := mkStorage {
  Pool : FPoolAllocator;
  Arena : gmap Handle (list FBlock);
}.

(** A voxel position inside a chunk. *)
Definition Position : Type := (nat * nat * nat)%type.

(** The six sides of a voxel, by axis and direction. *)
Inductive Face : Type := NegX | PosX | NegY | PosY | NegZ | PosZ.

#[global] Instance Face_eq_dec : EqDecision Face.
Proof. solve_decision. Defined.

Definition Faces : list Face := [NegX; PosX; NegY; PosY; NegZ; PosZ].

(** The slot of a position in the voxel array: x-major, then y, then z. *)
Definition BlockIndex (p : Position) : nat :=
  let '(x, y, z) := p in (x * CHUNK_SIZE + y) * CHUNK_SIZE + z.

(** The position across a face, unless that is outside the chunk. *)
Definition Neighbor (p : Position) (f : Face) : option Position :=
  let '(x, y, z) := p in
  match f with
  | NegX => if decide (0 < x) then Some (x - 1, y, z) else None
  | PosX => if decide (x + 1 < CHUNK_SIZE) then Some (x + 1, y, z) else None
  | NegY => if decide (0 < y) then Some (x, y - 1, z) else None
  | PosY => if decide (y + 1 < CHUNK_SIZE) then Some (x, y + 1, z) else None
  | NegZ => if decide (0 < z) then Some (x, y, z - 1) else None
  | PosZ => if decide (z + 1 < CHUNK_SIZE) then Some (x, y, z + 1) else None
  end.

Definition ActiveAt (Blocks : list FBlock) (p : Position) : bool :=
  match Blocks !! BlockIndex p with
  | Some b => IsActive b
  | None => false
  end.

(** A face is exposed when it is on the boundary of the chunk or its
    neighbour is inactive. *)
Definition Exposed (Blocks : list FBlock) (p : Position) (f : Face) : bool :=
  match Neighbor p f with
  | Some q => negb (ActiveAt Blocks q)
  | None => true
  end.

Section Mesh.

(** The vertex record of the mesh and the vertices that make up one face
    of the voxel at a position.  [Mesh.h] is not part of the sources and
    the layout of a vertex belongs to the rendering backend, so both are
    parameters. *)
Context {FVoxelVertex : Type}.
Variable FaceVertices : Position -> Face -> list FVoxelVertex.

(** The data members of [FChunk] (Chunk.h, lines 64-66); the mesh is read
    as the content of its vertex buffer. *)
Record FChunk : Type := mkChunk {
  mBlocks : option Handle;
  mMesh : list FVoxelVertex;
  mIsLoaded : bool;
}.

(** Modelled from the spec: [FChunk::FChunk()] is defined in a source file
    that is not available.  A chunk starts unloaded, with no voxel array
    and an empty mesh. *)
Definition create : FChunk :=
  {| mBlocks := None; mMesh := []; mIsLoaded := false |}.

(** [FChunk::IsLoaded]. *)
Definition IsLoaded (C : FChunk) : bool := mIsLoaded C.

(** The voxel array a loaded chunk points to. *)
Definition Voxels (W : Storage) (C : FChunk) : option (list FBlock) :=
  if mIsLoaded C then h ← mBlocks C; Arena W !! h else None.

(** Modelled from the spec: [FChunk::Load] is defined in a source file
    that is not available.  It takes one block from the pool, and fails as
    the pool does when that is exhausted; otherwise it sets all 4096 voxel
    records of the block to the default and marks the chunk loaded. *)
Definition Load (W : Storage) (C : FChunk) : option (Storage * FChunk) :=
  match Allocate (Pool W) with
  | None => None
  | Some (h, P') =>
      Some ({| Pool := P';
               Arena := <[h := replicate BLOCKS_PER_CHUNK DefaultBlock]> (Arena W) |},
            {| mBlocks := Some h; mMesh := mMesh C; mIsLoaded := true |})
  end.

(** Modelled from the spec: [FChunk::Unload] is defined in a source file
    that is not available.  It gives the voxel block back to the pool,
    clears the mesh and marks the chunk unloaded; on an unloaded chunk it
    does nothing. *)
Definition Unload (W : Storage) (C : FChunk) : option (Storage * FChunk) :=
  if mIsLoaded C then
    h ← mBlocks C;
    P' ← Free (Pool W) h;
    Some ({| Pool := P'; Arena := Arena W |},
          {| mBlocks := None; mMesh := []; mIsLoaded := false |})
  else Some (W, C).

(** Modelled from the spec: [FChunk::CreateCube] is defined in a source
    file that is not available.  It appends to the vertex buffer the
    faces of the voxel that are exposed, in the order of [Faces]. *)
Definition CreateCube (Blocks : list FBlock) (Mesh : list FVoxelVertex) (p : Position)
  : list FVoxelVertex :=
  foldl (fun Mesh f => if Exposed Blocks p f then Mesh ++ FaceVertices p f else Mesh)
        Mesh Faces.

(** The scan of all voxel slots, x outermost and z innermost, adding a
    cube for every active voxel. *)
Definition ScanVoxels (Blocks : list FBlock) (Mesh : list FVoxelVertex) : list FVoxelVertex :=
  foldl (fun Mesh x =>
    foldl (fun Mesh y =>
      foldl (fun Mesh z =>
        if ActiveAt Blocks (x, y, z) then CreateCube Blocks Mesh (x, y, z) else Mesh)
      Mesh (seq 0 CHUNK_SIZE))
    Mesh (seq 0 CHUNK_SIZE))
  Mesh (seq 0 CHUNK_SIZE).

(** Modelled from the spec: [FChunk::BuildMesh] is defined in a source
    file that is not available.  It drops the geometry of the previous
    build and fills the vertex buffer by a scan of the voxel array.
    [None] is a call on a chunk that has no voxel array. *)
Definition BuildMesh (W : Storage) (C : FChunk) : option FChunk :=
  Blocks ← Voxels W C;
  Some {| mBlocks := mBlocks C;
          mMesh := ScanVoxels Blocks [];
          mIsLoaded := mIsLoaded C |}.

End Mesh.

Arguments FChunk FVoxelVertex : clear implicits.
Arguments ScanVoxels : simpl never.

Section Lifecycle.

Context {FVoxelVertex : Type}.
Variable FaceVertices : Position -> Face -> list FVoxelVertex.

Implicit Types (W : Storage) (C : FChunk FVoxelVertex).

(** Whatever the block held before, a load leaves it all default. *)
Lemma Load_fresh W C W' C' :
  Load W C = Some (W', C') ->
  IsLoaded C' = true
  /\ mMesh C' = mMesh C
  /\ Voxels W' C' = Some (replicate BLOCKS_PER_CHUNK DefaultBlock)
  /\ exists h, mBlocks C' = Some h /\ Allocate (Pool W) = Some (h, Pool W').
Proof.
  unfold Load. destruct (Allocate (Pool W)) as [[h P'] |]; [| done].
  intros [= <- <-]. unfold Voxels, IsLoaded. cbn.
  split_and!; try done.
  - apply lookup_insert_eq.
  - by exists h.
Qed.

Lemma Allocate_live (P P' : FPoolAllocator) (h : Handle) :
  Allocate P = Some (h, P') -> h ∈ Allocated P'.
Proof.
  unfold Allocate. destruct (FreeList P); [done |].
  intros [= <- <-]. cbn. apply elem_of_union. left. by apply elem_of_singleton.
Qed.

Lemma Free_then_Allocate (P P' : FPoolAllocator) (h : Handle) :
  Free P h = Some P' -> is_Some (Allocate P').
Proof.
  unfold Free. case_decide; [| done]. intros [= <-]. by eexists.
Qed.

(** Unloading a chunk that was just loaded succeeds and frees a block. *)
Lemma Unload_loaded W C W' C' :
  Load W C = Some (W', C') ->
  exists W'' C'',
    Unload W' C' = Some (W'', C'')
    /\ IsLoaded C'' = false
    /\ mBlocks C'' = None
    /\ mMesh C'' = []
    /\ Voxels W'' C'' = None
    /\ is_Some (Allocate (Pool W'')).
Proof.
  intros Hload. apply Load_fresh in Hload as (Hl & _ & _ & h & Hh & Halloc).
  unfold Unload, IsLoaded in *. rewrite Hl, Hh. cbn.
  apply Allocate_live in Halloc.
  destruct (Free (Pool W') h) as [P'' |] eqn:Hfree.
  - cbn. eexists _, _. split_and!; try done. cbn.
    by eapply Free_then_Allocate.
  - unfold Free in Hfree. by rewrite decide_True in Hfree.
Qed.

(** Unloading twice is unloading once. *)
Lemma Unload_unloaded W C : IsLoaded C = false -> Unload W C = Some (W, C).
Proof. unfold Unload, IsLoaded. by intros ->. Qed.

(** C6: whenever the pool has a block to give, [Load(); Unload(); Load()]
    succeeds at each step and ends with the chunk loaded and all 4096
    voxel records default, the very voxel state the first [Load] gave;
    this holds whatever the arena held before. *)
Theorem Load_Unload_Load_is_fresh W C :
  is_Some (Allocate (Pool W)) ->
  exists W1 C1 W2 C2 W3 C3,
    Load W C = Some (W1, C1)
    /\ Unload W1 C1 = Some (W2, C2)
    /\ Load W2 C2 = Some (W3, C3)
    /\ IsLoaded C2 = false
    /\ IsLoaded C3 = true
    /\ Voxels W3 C3 = Some (replicate BLOCKS_PER_CHUNK DefaultBlock)
    /\ length (replicate BLOCKS_PER_CHUNK DefaultBlock) = 4096
    /\ Voxels W3 C3 = Voxels W1 C1
    /\ mMesh C3 = [].
Proof.
  intros [[h P1] Halloc].
  destruct (Load W C) as [[W1 C1] |] eqn:Hload1.
  2: { unfold Load in Hload1. by rewrite Halloc in Hload1. }
  destruct (Unload_loaded _ _ _ _ Hload1) as (W2 & C2 & Hunload & Hl2 & _ & Hmesh2 & _ & [[h2 P3] Halloc2]).
  destruct (Load W2 C2) as [[W3 C3] |] eqn:Hload2.
  2: { unfold Load in Hload2. by rewrite Halloc2 in Hload2. }
  destruct (Load_fresh _ _ _ _ Hload1) as (_ & _ & Hv1 & _).
  destruct (Load_fresh _ _ _ _ Hload2) as (Hl3 & Hmesh3 & Hv3 & _).
  exists W1, C1, W2, C2, W3, C3. split_and!.
  - reflexivity.
  - exact Hunload.
  - exact Hload2.
  - exact Hl2.
  - exact Hl3.
  - exact Hv3.
  - apply length_replicate.
  - by rewrite Hv1, Hv3.
  - by rewrite Hmesh3.
Qed.

(** A loop whose every step only appends to the buffer appends as a whole. *)
Lemma foldl_appends {A : Type} (step : list FVoxelVertex -> A -> list FVoxelVertex) (l : list A) :
  (forall Mesh a, step Mesh a = Mesh ++ step [] a) ->
  forall Mesh, foldl step Mesh l = Mesh ++ foldl step [] l.
Proof.
  intros Hstep. induction l as [| a l IH]; intros Mesh; cbn [foldl].
  - by rewrite app_nil_r.
  - rewrite IH, (IH (step [] a)), (Hstep Mesh a). by rewrite app_assoc.
Qed.

Lemma CreateCube_appends (Blocks : list FBlock) (p : Position) (Mesh : list FVoxelVertex) :
  CreateCube FaceVertices Blocks Mesh p = Mesh ++ CreateCube FaceVertices Blocks [] p.
Proof.
  unfold CreateCube. apply foldl_appends. intros m f.
  destruct (Exposed Blocks p f); [done | by rewrite app_nil_r].
Qed.

(** The scan itself never drops what the buffer holds: it is the reset in
    [BuildMesh] that discards the geometry of an earlier build. *)
Lemma ScanVoxels_appends (Blocks : list FBlock) (Mesh : list FVoxelVertex) :
  ScanVoxels FaceVertices Blocks Mesh = Mesh ++ ScanVoxels FaceVertices Blocks [].
Proof.
  unfold ScanVoxels. revert Mesh. apply foldl_appends. intros Mx x.
  revert Mx. apply foldl_appends. intros My y.
  revert My. apply foldl_appends. intros Mz z.
  destruct (ActiveAt Blocks (x, y, z)); [apply CreateCube_appends | by rewrite app_nil_r].
Qed.

(** On a loaded chunk [BuildMesh] succeeds and replaces the mesh. *)
Lemma BuildMesh_loaded W C (Blocks : list FBlock) :
  Voxels W C = Some Blocks ->
  BuildMesh FaceVertices W C
  = Some {| mBlocks := mBlocks C;
            mMesh := ScanVoxels FaceVertices Blocks [];
            mIsLoaded := mIsLoaded C |}.
Proof. intros Hv. unfold BuildMesh. by rewrite Hv. Qed.

(** Without a voxel array there is nothing to build from. *)
Lemma BuildMesh_unloaded W C :
  IsLoaded C = false -> BuildMesh FaceVertices W C = None.
Proof. unfold BuildMesh, Voxels, IsLoaded. by intros ->. Qed.

(** C7: the mesh [BuildMesh] leaves is a function of the voxel array
    alone.  Two chunks that hold the same voxels get the same vertex
    buffer, whatever their meshes held before; in particular a second
    build of an unchanged chunk returns the chunk as the first left it,
    with nothing of the first build's geometry added again. *)
Theorem BuildMesh_depends_on_voxels_only W W' C C' (Blocks : list FBlock) :
  Voxels W C = Some Blocks ->
  Voxels W' C' = Some Blocks ->
  exists B B',
    BuildMesh FaceVertices W C = Some B
    /\ BuildMesh FaceVertices W' C' = Some B'
    /\ mMesh B = mMesh B'
    /\ length (mMesh B) = length (mMesh B')
    /\ mMesh B = ScanVoxels FaceVertices Blocks []
    /\ BuildMesh FaceVertices W B = Some B.
Proof.
  intros Hv Hv'.
  set (B := {| mBlocks := mBlocks C;
               mMesh := ScanVoxels FaceVertices Blocks [];
               mIsLoaded := mIsLoaded C |}).
  set (B' := {| mBlocks := mBlocks C';
                mMesh := ScanVoxels FaceVertices Blocks [];
                mIsLoaded := mIsLoaded C' |}).
  assert (Voxels W B = Some Blocks) as HvB by exact Hv.
  exists B, B'. split_and!.
  - exact (BuildMesh_loaded W C Blocks Hv).
  - exact (BuildMesh_loaded W' C' Blocks Hv').
  - unfold B, B'. cbn [mMesh]. reflexivity.
  - unfold B, B'. cbn [mMesh]. reflexivity.
  - unfold B. cbn [mMesh]. reflexivity.
  - rewrite (BuildMesh_loaded W B Blocks HvB). unfold B. cbn [mBlocks mMesh mIsLoaded].
    reflexivity.
Qed.

End Lifecycle.

(** *** A chunk to run the operations on *)

(** A vertex buffer that records which face of which voxel was emitted. *)
Definition FaceTag (p : Position) (f : Face) : list (Position * Face) := [(p, f)].

(** The storage at start-up: the chunk allocator untouched, the arena
    never written. *)
Definition InitialStorage : Storage := {| Pool := ChunkAllocator; Arena := ∅ |}.

Lemma Load_Unload_Load_is_fresh_witness :
  exists W1 C1 W2 C2 W3 C3,
    Load InitialStorage (create (FVoxelVertex := Position * Face)) = Some (W1, C1)
    /\ Unload W1 C1 = Some (W2, C2)
    /\ Load W2 C2 = Some (W3, C3)
    /\ IsLoaded C2 = false
    /\ IsLoaded C3 = true
    /\ Voxels W3 C3 = Some (replicate BLOCKS_PER_CHUNK DefaultBlock)
    /\ length (replicate BLOCKS_PER_CHUNK DefaultBlock) = 4096
    /\ Voxels W3 C3 = Voxels W1 C1
    /\ mMesh C3 = [].
Proof.
  apply (Load_Unload_Load_is_fresh InitialStorage create).
  by eexists.
Defined.

(** A voxel array with the given positions active and all others default. *)
Definition WithActive (ps : list Position) : list FBlock :=
  foldl (fun Blocks p => <[BlockIndex p := {| IsActive := true |}]> Blocks)
        (replicate BLOCKS_PER_CHUNK DefaultBlock) ps.

(** A loaded chunk over block 0 holding the given voxels, with a stale mesh. *)
Definition LoadedWith (Blocks : list FBlock) (Stale : list (Position * Face))
  : Storage * FChunk (Position * Face) :=
  ({| Pool := ChunkAllocator; Arena := {[0 := Blocks]} |},
   {| mBlocks := Some 0; mMesh := Stale; mIsLoaded := true |}).

Lemma Voxels_LoadedWith (Blocks : list FBlock) (Stale : list (Position * Face)) :
  Voxels (fst (LoadedWith Blocks Stale)) (snd (LoadedWith Blocks Stale)) = Some Blocks.
Proof. unfold Voxels, LoadedWith. cbn. apply lookup_singleton_eq. Qed.

Lemma BuildMesh_depends_on_voxels_only_witness :
  exists B B',
    BuildMesh FaceTag (fst (LoadedWith (WithActive [(0, 0, 0)]) []))
                      (snd (LoadedWith (WithActive [(0, 0, 0)]) [])) = Some B
    /\ BuildMesh FaceTag (fst (LoadedWith (WithActive [(0, 0, 0)]) [((1, 1, 1), PosX)]))
                         (snd (LoadedWith (WithActive [(0, 0, 0)]) [((1, 1, 1), PosX)])) = Some B'
    /\ mMesh B = mMesh B'
    /\ length (mMesh B) = length (mMesh B')
    /\ mMesh B = ScanVoxels FaceTag (WithActive [(0, 0, 0)]) []
    /\ BuildMesh FaceTag (fst (LoadedWith (WithActive [(0, 0, 0)]) [])) B = Some B.
Proof.
  apply (BuildMesh_depends_on_voxels_only FaceTag _ _ _ _ (WithActive [(0, 0, 0)])).
  - apply Voxels_LoadedWith.
  - apply Voxels_LoadedWith.
Defined.

(** A lone active voxel in a corner of the chunk shows all six faces. *)
Example corner_voxel_six_faces :
  ScanVoxels FaceTag (WithActive [(0, 0, 0)]) []
  = [((0, 0, 0), NegX); ((0, 0, 0), PosX); ((0, 0, 0), NegY);
     ((0, 0, 0), PosY); ((0, 0, 0), NegZ); ((0, 0, 0), PosZ)].
Proof. vm_compute. reflexivity. Qed.

(** Two active voxels side by side hide the faces between them. *)
Example adjacent_voxels_cull_shared_faces :
  length (ScanVoxels FaceTag (WithActive [(3, 4, 5); (4, 4, 5)]) []) = 10
  /\ (((3, 4, 5), PosX) ∉ ScanVoxels FaceTag (WithActive [(3, 4, 5); (4, 4, 5)]) [])
  /\ (((4, 4, 5), NegX) ∉ ScanVoxels FaceTag (WithActive [(3, 4, 5); (4, 4, 5)]) []).
Proof.
  assert (ScanVoxels FaceTag (WithActive [(3, 4, 5); (4, 4, 5)]) []
          = [((3, 4, 5), NegX); ((3, 4, 5), NegY); ((3, 4, 5), PosY);
             ((3, 4, 5), NegZ); ((3, 4, 5), PosZ);
             ((4, 4, 5), PosX); ((4, 4, 5), NegY); ((4, 4, 5), PosY);
             ((4, 4, 5), NegZ); ((4, 4, 5), PosZ)]) as -> by (vm_compute; reflexivity).
  split_and!; [reflexivity | |]; apply (bool_decide_unpack _); vm_compute; exact I.
Qed.

(** The chunk allocator runs dry after 500 blocks. *)
Lemma Allocate_bounded_by_capacity_witness :
  exists Blocks Full,
    AllocateN 500 ChunkAllocator = Some (Blocks, Full)
    /\ length Blocks = 500
    /\ NoDup Blocks
    /\ Allocate Full = None
    /\ (forall h, h ∈ Blocks ->
          exists Freed Again Full',
            Free Full h = Some Freed
            /\ Allocate Freed = Some (Again, Full')
            /\ Allocate Full' = None)
    /\ (forall P, reachable 500 P ->
          size (Allocated P) <= 500
          /\ forall h, h ∈ Allocated P -> h < 500).
Proof. exact (Allocate_bounded_by_capacity 500). Defined.

End Chunk.

(** ** Transforms: [FTransform] *)

Module Transform.

(** Where an [FTransform] lives; a null parent pointer is [None]. *)
Definition Address : Type := nat.

Section Operators.

(** [Vector3f] and [FQuaternion] with their [operator==] and
    [operator!=].  [Vector3.h] and [Quaternion.h] are not part of the
    sources, so the types and their comparisons are parameters. *)
Context {Vector3f FQuaternion : Type}.
Variable vec_eq vec_ne : Vector3f -> Vector3f -> bool.
Variable quat_eq quat_ne : FQuaternion -> FQuaternion -> bool.

(** The data members of [FTransform], in the order the constructors
    initialise them (Transform.inl, lines 7-12). *)
Record FTransform : Type := mkTransform {
  mTranslation : Vector3f;
  mRotation : FQuaternion;
  mScale : Vector3f;
  mParent : option Address;
}.

(** The copy constructor and [operator=] (Transform.inl, lines 23-39). *)
Definition copy (Other : FTransform) : FTransform :=
  {| mTranslation := mTranslation Other;
     mRotation := mRotation Other;
     mScale := mScale Other;
     mParent := mParent Other |}.

(** The accessors (Transform.inl, lines 41-89). *)
Definition GetPosition (t : FTransform) : Vector3f := mTranslation t.
Definition GetRotation (t : FTransform) : FQuaternion := mRotation t.
Definition GetScale (t : FTransform) : Vector3f := mScale t.
Definition GetParent (t : FTransform) : option Address := mParent t.

Definition SetPosition (t : FTransform) (NewPosition : Vector3f) : FTransform :=
  {| mTranslation := NewPosition; mRotation := mRotation t;
     mScale := mScale t; mParent := mParent t |}.

Definition SetRotation (t : FTransform) (NewRotation : FQuaternion) : FTransform :=
  {| mTranslation := mTranslation t; mRotation := NewRotation;
     mScale := mScale t; mParent := mParent t |}.

Definition SetScale (t : FTransform) (NewScale : Vector3f) : FTransform :=
  {| mTranslation := mTranslation t; mRotation := mRotation t;
     mScale := NewScale; mParent := mParent t |}.

Definition SetParent (t : FTransform) (NewParent : option Address) : FTransform :=
  {| mTranslation := mTranslation t; mRotation := mRotation t;
     mScale := mScale t; mParent := NewParent |}.

(** The built-in [==] and [!=] on pointers. *)
Definition ptr_eq (p q : option Address) : bool := bool_decide (p = q).
Definition ptr_ne (p q : option Address) : bool := negb (bool_decide (p = q)).

(** [operator==(const FTransform&, const FTransform&)]
    (Transform.inl, lines 96-102). *)
Definition op_eq (Lhs Rhs : FTransform) : bool :=
  ptr_eq (GetParent Lhs) (GetParent Rhs)
  && vec_eq (GetPosition Lhs) (GetPosition Rhs)
  && quat_eq (GetRotation Lhs) (GetRotation Rhs)
  && vec_eq (GetScale Lhs) (GetScale Rhs).

(** [operator!=(const FTransform&, const FTransform&)]
    (Transform.inl, lines 104-110). *)
Definition op_ne (Lhs Rhs : FTransform) : bool :=
  ptr_ne (GetParent Lhs) (GetParent Rhs)
  || vec_ne (GetPosition Lhs) (GetPosition Rhs)
  || quat_ne (GetRotation Lhs) (GetRotation Rhs)
  || vec_ne (GetScale Lhs) (GetScale Rhs).

(** [operator==] is the conjunction of the four member comparisons. *)
Lemma op_eq_true (a b : FTransform) :
  op_eq a b = true
  <-> GetParent a = GetParent b
      /\ vec_eq (GetPosition a) (GetPosition b) = true
      /\ quat_eq (GetRotation a) (GetRotation b) = true
      /\ vec_eq (GetScale a) (GetScale b) = true.
Proof.
  unfold op_eq, ptr_eq. rewrite !andb_true_iff, bool_decide_eq_true. tauto.
Qed.

(** Where the member comparisons decide equality, so does [operator==]. *)
Lemma op_eq_reflects (a b : FTransform) :
  (forall u v, vec_eq u v = true <-> u = v) ->
  (forall p q, quat_eq p q = true <-> p = q) ->
  op_eq a b = true <-> a = b.
Proof.
  intros Hvec Hquat. rewrite op_eq_true, !Hvec, Hquat.
  unfold GetParent, GetPosition, GetRotation, GetScale.
  destruct a, b. simpl. split.
  - by intros (-> & -> & -> & ->).
  - by intros [= -> -> -> ->].
Qed.

(** A copy compares equal to its original when the member comparisons
    are reflexive. *)
Lemma copy_op_eq (a : FTransform) :
  (forall u, vec_eq u u = true) -> (forall p, quat_eq p p = true) ->
  op_eq (copy a) a = true.
Proof.
  intros Hvec Hquat. apply op_eq_true. unfold copy. simpl. by rewrite !Hvec, Hquat.
Qed.

(** C10: given that [!=] on vectors and on quaternions is the negation of
    their [==], [a != b] is the negation of [a == b] for all transforms
    [a] and [b]; and [a == b] holds exactly when the parents, the
    positions, the rotations and the scales of [a] and [b] compare equal. *)
Theorem op_ne_negates_op_eq (a b : FTransform) :
  (forall u v, vec_ne u v = negb (vec_eq u v)) ->
  (forall p q, quat_ne p q = negb (quat_eq p q)) ->
  op_ne a b = negb (op_eq a b)
  /\ (op_eq a b = true
      <-> GetParent a = GetParent b
          /\ vec_eq (GetPosition a) (GetPosition b) = true
          /\ quat_eq (GetRotation a) (GetRotation b) = true
          /\ vec_eq (GetScale a) (GetScale b) = true).
Proof.
  intros Hvec Hquat. split; [| apply op_eq_true].
  unfold op_ne, op_eq, ptr_ne. rewrite !Hvec, Hquat.
  rewrite !negb_andb. reflexivity.
Qed.

End Operators.

Arguments FTransform : clear implicits.

(** *** Transforms over integer coordinates *)

Definition Vec3 : Type := (Z * Z * Z)%type.
Definition Quat : Type := (Z * Z * Z * Z)%type.

Definition Vec3_eq (u v : Vec3) : bool := bool_decide (u = v).
Definition Vec3_ne (u v : Vec3) : bool := negb (bool_decide (u = v)).
Definition Quat_eq (p q : Quat) : bool := bool_decide (p = q).
Definition Quat_ne (p q : Quat) : bool := negb (bool_decide (p = q)).

Definition Origin : FTransform Vec3 Quat :=
  {| mTranslation := (0, 0, 0)%Z; mRotation := (1, 0, 0, 0)%Z;
     mScale := (1, 1, 1)%Z; mParent := None |}.

Lemma op_ne_negates_op_eq_witness :
  op_ne Vec3_ne Quat_ne Origin (SetParent Origin (Some 4))
    = negb (op_eq Vec3_eq Quat_eq Origin (SetParent Origin (Some 4)))
  /\ (op_eq Vec3_eq Quat_eq Origin (SetParent Origin (Some 4)) = true
      <-> GetParent Origin = GetParent (SetParent Origin (Some 4))
          /\ Vec3_eq (GetPosition Origin) (GetPosition (SetParent Origin (Some 4))) = true
          /\ Quat_eq (GetRotation Origin) (GetRotation (SetParent Origin (Some 4))) = true
          /\ Vec3_eq (GetScale Origin) (GetScale (SetParent Origin (Some 4))) = true).
Proof.
  apply (op_ne_negates_op_eq Vec3_eq Vec3_ne Quat_eq Quat_ne).
  - reflexivity.
  - reflexivity.
Defined.

(** Transforms that differ only in the parent are unequal; a transform is
    equal to itself. *)
Example parent_tells_apart :
  op_eq Vec3_eq Quat_eq Origin (SetParent Origin (Some 4)) = false
  /\ op_ne Vec3_ne Quat_ne Origin (SetParent Origin (Some 4)) = true
  /\ op_eq Vec3_eq Quat_eq Origin Origin = true
  /\ op_ne Vec3_ne Quat_ne Origin Origin = false.
Proof. vm_compute. done. Qed.

End Transform.

(** ** The order of the system sequence: adding, looking up, removing *)

Module SystemManagerOrder.

Import SystemManager.

(** Two entries that satisfy a test make the filtered list at least two
    long. *)
Lemma filter_two {A : Type} (P : A -> Prop) `{!forall x, Decision (P x)}
    (l : list A) (i j : nat) (x y : A) :
  l !! i = Some x -> l !! j = Some y -> i <> j -> P x -> P y ->
  2 <= length (filter P l).
Proof.
  revert i j. induction l as [| a l IH]; intros i j Hi Hj Hne Hx Hy; [done |].
  assert (forall k z, l !! k = Some z -> P z -> 1 <= length (filter P l)) as Hone.
  { intros k z Hk Hz.
    assert (z ∈ filter P l) as Hin.
    { apply list_elem_of_filter. split; [done |]. by eapply list_elem_of_lookup_2. }
    destruct (filter P l); [by apply not_elem_of_nil in Hin | simpl; lia]. }
  destruct i as [| i], j as [| j]; simpl in Hi, Hj.
  - done.
  - injection Hi as ->. rewrite filter_cons_True by done. simpl.
    specialize (Hone j y Hj Hy). lia.
  - injection Hj as ->. rewrite filter_cons_True by done. simpl.
    specialize (Hone i x Hi Hx). lia.
  - assert (2 <= length (filter P l)) as Hl by (eapply (IH i j); eauto).
    rewrite filter_cons. destruct (decide (P a)); simpl; lia.
Qed.

(** Erasing an entry takes it, and nothing else, out of the filtered list. *)
Lemma filter_delete_length {A : Type} (P : A -> Prop) `{!forall x, Decision (P x)}
    (l : list A) (i : nat) (x : A) :
  l !! i = Some x ->
  length (filter P l)
  = length (filter P (delete i l)) + (if decide (P x) then 1 else 0).
Proof.
  intros Hi. rewrite delete_take_drop.
  rewrite <- (take_drop_middle l i x Hi) at 1.
  rewrite !filter_app, filter_cons, !length_app.
  destruct (decide (P x)); simpl; lia.
Qed.

(** The lookup by type on a sequence with one more system at its end. *)
Lemma GetSystem_snoc_registered
    (NDEBUG : bool) (M : FSystemManager) (New : SystemObject) (T : TypeInfo) :
  Registered T M ->
  GetSystem NDEBUG {| mWorld := mWorld M; mSystems := mSystems M ++ [New] |} T
  = GetSystem NDEBUG M T.
Proof.
  intros (Sys & Hin & HT). unfold GetSystem. cbn [mSystems].
  destruct (list_find_elem_of (fun S => DynamicType S = T) _ Sys Hin HT) as [[i Sys'] Hfind].
  by rewrite (list_find_app_l _ _ _ _ _ Hfind), Hfind.
Qed.

Lemma GetSystem_snoc_fresh
    (NDEBUG : bool) (M : FSystemManager) (New : SystemObject) (T : TypeInfo) :
  ~ Registered T M ->
  GetSystem NDEBUG {| mWorld := mWorld M; mSystems := mSystems M ++ [New] |} T
  = if decide (DynamicType New = T) then Returned (Some New) else GetSystem NDEBUG M T.
Proof.
  intros Hnot. unfold GetSystem. cbn [mSystems].
  destruct (list_find (fun S => DynamicType S = T) (mSystems M)) as [[i Sys] |] eqn:Hfind.
  - destruct Hnot. apply list_find_Some in Hfind as (Hi & HT & _).
    exists Sys. split; [by eapply list_elem_of_lookup_2 | done].
  - rewrite (list_find_app_r _ _ _ Hfind). cbn. case_decide; reflexivity.
Qed.

Lemma GetSystem_snoc_other
    (NDEBUG : bool) (M : FSystemManager) (New : SystemObject) (T : TypeInfo) :
  DynamicType New <> T ->
  GetSystem NDEBUG {| mWorld := mWorld M; mSystems := mSystems M ++ [New] |} T
  = GetSystem NDEBUG M T.
Proof.
  intros Hne. unfold GetSystem. cbn [mSystems].
  destruct (list_find (fun S => DynamicType S = T) (mSystems M)) as [[i Sys] |] eqn:Hfind.
  - by rewrite (list_find_app_l _ _ _ _ _ Hfind).
  - rewrite (list_find_app_r _ _ _ Hfind). cbn. by rewrite decide_False.
Qed.

Section Order.

Variable GetBitMask : System.EComponentType -> Bitset.bitset.
Variable GetBitMaskFor : TypeInfo -> Bitset.bitset.
Variable Components : TypeInfo -> list System.EComponentType.

(** [AddSystem] disturbs nothing that is registered: every position keeps
    its system, every type that had an instance is still answered with
    the same instance, and the world reference stays. *)
Theorem AddSystem_keeps_registered (M : FSystemManager) (T : TypeInfo) :
  mWorld (fst (AddSystem GetBitMask GetBitMaskFor Components M T)) = mWorld M
  /\ (forall Index, Index < length (mSystems M) ->
        GetSystemAt (fst (AddSystem GetBitMask GetBitMaskFor Components M T)) Index
        = GetSystemAt M Index)
  /\ (forall NDEBUG U, Registered U M ->
        GetSystem NDEBUG (fst (AddSystem GetBitMask GetBitMaskFor Components M T)) U
        = GetSystem NDEBUG M U).
Proof.
  split_and!.
  - reflexivity.
  - intros Index Hlt. unfold GetSystemAt. cbn. by apply lookup_app_l.
  - intros NDEBUG U Hreg. cbn [AddSystem fst].
    by apply GetSystem_snoc_registered.
Qed.

(** A type that has no instance yet is answered with the new system right
    after [AddSystem] for it; the lookup of any other type is unchanged. *)
Theorem GetSystem_finds_added (NDEBUG : bool) (M : FSystemManager) (T : TypeInfo) :
  ~ Registered T M ->
  GetSystem NDEBUG (fst (AddSystem GetBitMask GetBitMaskFor Components M T)) T
    = Returned (Some (snd (AddSystem GetBitMask GetBitMaskFor Components M T)))
  /\ forall U, U <> T ->
       GetSystem NDEBUG (fst (AddSystem GetBitMask GetBitMaskFor Components M T)) U
       = GetSystem NDEBUG M U.
Proof.
  intros Hnew. split.
  - cbn [AddSystem fst snd]. rewrite GetSystem_snoc_fresh by done.
    by rewrite decide_True.
  - intros U Hne. cbn [AddSystem fst].
    apply GetSystem_snoc_other. cbn. congruence.
Qed.

(** Removing the system that was added last undoes the [AddSystem]. *)
Theorem AddSystem_then_remove_last (M : FSystemManager) (T : TypeInfo) :
  RemoveSystemAt (fst (AddSystem GetBitMask GetBitMaskFor Components M T))
                 (length (mSystems M))
  = Some M.
Proof.
  unfold RemoveSystemAt. cbn [AddSystem fst mSystems mWorld].
  rewrite decide_True by (rewrite length_app; simpl; lia).
  rewrite delete_middle, app_nil_r. by destruct M.
Qed.

(** [AddSystem] keeps the manager at one instance per type exactly when
    the type it is called for has no instance yet. *)
Theorem AddSystem_single_instance (M : FSystemManager) (T : TypeInfo) :
  SingleInstance M ->
  SingleInstance (fst (AddSystem GetBitMask GetBitMaskFor Components M T))
  <-> ~ Registered T M.
Proof.
  intros Hsingle.
  assert (forall U, count_type U (fst (AddSystem GetBitMask GetBitMaskFor Components M T))
                    = count_type U M + (if decide (T = U) then 1 else 0)) as Hcount.
  { intros U. unfold count_type. cbn [AddSystem fst mSystems].
    rewrite filter_app, length_app, filter_cons, filter_nil. cbn [DynamicType construct].
    destruct (decide (T = U)); reflexivity. }
  rewrite Registered_count. split.
  - intros Hafter Hpos. specialize (Hafter T). rewrite Hcount in Hafter.
    rewrite decide_True in Hafter by done. lia.
  - intros Hzero U. rewrite Hcount. specialize (Hsingle U).
    destruct (decide (T = U)) as [<- |]; lia.
Qed.

(** The managers that [AddSystem] and [RemoveSystem(Index)] build up from
    a new one. *)
Inductive assembled : FSystemManager -> Prop :=
| assembled_create World :
    assembled (create World)
| assembled_AddSystem M T :
    assembled M -> assembled (fst (AddSystem GetBitMask GetBitMaskFor Components M T))
| assembled_RemoveSystemAt M Index M' :
    assembled M -> RemoveSystemAt M Index = Some M' -> assembled M'.

(** Every system of such a manager carries the bit the system registry
    holds for its own type. *)
Theorem assembled_system_bit (M : FSystemManager) (Index : nat) (Sys : SystemObject) :
  assembled M ->
  GetSystemAt M Index = Some Sys ->
  System.GetSystemBitMask (Base Sys) = GetBitMaskFor (DynamicType Sys).
Proof.
  intros Hasm. unfold GetSystemAt. revert Index Sys.
  enough (Forall (fun S => System.GetSystemBitMask (Base S) = GetBitMaskFor (DynamicType S))
                 (mSystems M)) as Hall.
  { intros Index Sys Hlook. by apply (Forall_lookup_1 _ _ _ _ Hall Hlook). }
  induction Hasm as [W | M T _ IH | M i M' _ IH Hrem].
  - constructor.
  - cbn [AddSystem fst mSystems]. apply Forall_app. split; [exact IH |].
    constructor; [reflexivity | constructor].
  - unfold RemoveSystemAt in Hrem. case_decide; [| done].
    injection Hrem as <-. cbn [mSystems]. by apply Forall_delete.
Qed.

End Order.

(** [RemoveSystem(Index)] within the sequence erases one entry: the
    systems before it stay where they are and every later one moves down
    by one position. *)
Theorem RemoveSystemAt_shifts (M : FSystemManager) (Index : nat) :
  Index < length (mSystems M) ->
  exists M',
    RemoveSystemAt M Index = Some M'
    /\ mWorld M' = mWorld M
    /\ S (length (mSystems M')) = length (mSystems M)
    /\ (forall i, i < Index -> GetSystemAt M' i = GetSystemAt M i)
    /\ (forall i, Index <= i -> GetSystemAt M' i = GetSystemAt M (S i)).
Proof.
  intros Hlt. unfold RemoveSystemAt. rewrite decide_True by done.
  eexists. split; [reflexivity |]. unfold GetSystemAt. cbn [mWorld mSystems].
  split_and!.
  - reflexivity.
  - rewrite length_delete by (by apply lookup_lt_is_Some_2). lia.
  - intros i Hi. by apply list_lookup_delete_lt.
  - intros i Hi. by apply list_lookup_delete_ge.
Qed.

(** Removing a system takes one instance of its type out of the manager
    and none of any other type; when it was the only one of its type, a
    lookup of that type fails its assertion from then on. *)
Theorem RemoveSystemAt_unregisters (M M' : FSystemManager) (Index : nat) (Sys : SystemObject) :
  GetSystemAt M Index = Some Sys ->
  RemoveSystemAt M Index = Some M' ->
  S (count_type (DynamicType Sys) M') = count_type (DynamicType Sys) M
  /\ (forall U, U <> DynamicType Sys -> count_type U M' = count_type U M)
  /\ (count_type (DynamicType Sys) M = 1 ->
      GetSystem false M' (DynamicType Sys) = AssertionFailed).
Proof.
  unfold GetSystemAt, RemoveSystemAt. intros Hlook Hrem.
  case_decide; [| done]. injection Hrem as <-.
  assert (forall U, count_type U M
                    = count_type U {| mWorld := mWorld M; mSystems := delete Index (mSystems M) |}
                      + (if decide (DynamicType Sys = U) then 1 else 0)) as Hcount.
  { intros U. unfold count_type. cbn [mSystems].
    rewrite (filter_delete_length (fun S => DynamicType S = U) _ _ _ Hlook).
    by repeat case_decide. }
  split_and!.
  - rewrite (Hcount (DynamicType Sys)). rewrite decide_True by done. lia.
  - intros U Hne. rewrite (Hcount U). rewrite decide_False by done. lia.
  - intros Hone. rewrite (Hcount (DynamicType Sys)) in Hone.
    rewrite decide_True in Hone by done.
    rewrite GetSystem_missing; [done |].
    rewrite Registered_count. lia.
Qed.

(** While there is one instance per type, the two lookups agree: the
    system at a position is the one its own type is answered with. *)
Theorem GetSystem_agrees_with_position
    (NDEBUG : bool) (M : FSystemManager) (Index : nat) (Sys : SystemObject) :
  SingleInstance M ->
  GetSystemAt M Index = Some Sys ->
  GetSystem NDEBUG M (DynamicType Sys) = Returned (Some Sys).
Proof.
  intros Hsingle Hlook.
  destruct (GetSystem_found NDEBUG M (DynamicType Sys)) as (j & Sys' & Hget & Hj & HT & _).
  { exists Sys. split; [| done]. by eapply list_elem_of_lookup_2. }
  rewrite Hget. destruct (decide (Index = j)) as [-> | Hne].
  - unfold GetSystemAt in Hlook. congruence.
  - specialize (Hsingle (DynamicType Sys)). unfold count_type in Hsingle.
    pose proof (filter_two (fun S => DynamicType S = DynamicType Sys)
                  (mSystems M) Index j Sys Sys' Hlook Hj Hne eq_refl HT).
    lia.
Qed.

(** *** The properties on the small world *)

Lemma GetSystem_finds_added_witness :
  GetSystem false (fst (ExampleAdd (create 0) 0)) 0
    = Returned (Some (snd (ExampleAdd (create 0) 0)))
  /\ forall U, U <> 0 ->
       GetSystem false (fst (ExampleAdd (create 0) 0)) U = GetSystem false (create 0) U.
Proof.
  apply (GetSystem_finds_added System.SequentialBit SystemBit ExampleComponents false (create 0) 0).
  intros (Sys & Hin & _). by apply not_elem_of_nil in Hin.
Defined.

Lemma AddSystem_single_instance_witness :
  SingleInstance (fst (ExampleAdd (create 0) 0)) <-> ~ Registered 0 (create 0).
Proof.
  apply (AddSystem_single_instance System.SequentialBit SystemBit ExampleComponents (create 0) 0).
  intros T. unfold count_type. simpl. lia.
Defined.

Lemma assembled_system_bit_witness :
  System.GetSystemBitMask (Base (snd (ExampleAdd (fst (ExampleAdd (create 0) 0)) 1)))
  = SystemBit (DynamicType (snd (ExampleAdd (fst (ExampleAdd (create 0) 0)) 1))).
Proof.
  apply (assembled_system_bit System.SequentialBit SystemBit ExampleComponents TwoSystems 1).
  - unfold TwoSystems, ExampleAdd. apply assembled_AddSystem, assembled_AddSystem, assembled_create.
  - reflexivity.
Defined.

Lemma RemoveSystemAt_shifts_witness :
  exists M',
    RemoveSystemAt TwoSystems 0 = Some M'
    /\ mWorld M' = mWorld TwoSystems
    /\ S (length (mSystems M')) = length (mSystems TwoSystems)
    /\ (forall i, i < 0 -> GetSystemAt M' i = GetSystemAt TwoSystems i)
    /\ (forall i, 0 <= i -> GetSystemAt M' i = GetSystemAt TwoSystems (S i)).
Proof.
  apply (RemoveSystemAt_shifts TwoSystems 0). simpl. lia.
Defined.

Lemma RemoveSystemAt_unregisters_witness :
  S (count_type 1 (fst (ExampleAdd (create 0) 0))) = count_type 1 TwoSystems
  /\ (forall U, U <> 1 -> count_type U (fst (ExampleAdd (create 0) 0)) = count_type U TwoSystems)
  /\ (count_type 1 TwoSystems = 1 ->
      GetSystem false (fst (ExampleAdd (create 0) 0)) 1 = AssertionFailed).
Proof.
  apply (RemoveSystemAt_unregisters TwoSystems (fst (ExampleAdd (create 0) 0)) 1
           (snd (ExampleAdd (fst (ExampleAdd (create 0) 0)) 1))).
  - reflexivity.
  - reflexivity.
Defined.

Lemma GetSystem_agrees_with_position_witness :
  GetSystem false (fst (ExampleAdd (create 0) 0)) 0
  = Returned (Some (snd (ExampleAdd (create 0) 0))).
Proof.
  apply (GetSystem_agrees_with_position false (fst (ExampleAdd (create 0) 0)) 0
           (snd (ExampleAdd (create 0) 0))).
  - intros T. unfold count_type. simpl.
    destruct (decide (0 = T)) as [<- | Hne].
    + rewrite filter_cons_True by done. simpl. lia.
    + rewrite filter_cons_False by done. simpl. lia.
  - reflexivity.
Defined.

End SystemManagerOrder.

(** ** The interest mask after a run of [AddComponentType] calls *)

Module InterestMask.

Import System.

Section Masks.

Variable GetBitMask : EComponentType -> Bitset.bitset.

(** [AddComponentType] called for each type of a list in turn, as the
    constructor of a system class does. *)
Definition AddComponentTypes (S : ISystem) (Ts : list EComponentType) : ISystem :=
  foldl (AddComponentType GetBitMask) S Ts.

Lemma AddComponentTypes_frame (Ts : list EComponentType) (S : ISystem) :
  mWorld (AddComponentTypes S Ts) = mWorld S
  /\ mSystemBitMask (AddComponentTypes S Ts) = mSystemBitMask S
  /\ mGameObjectIDs (AddComponentTypes S Ts) = mGameObjectIDs S.
Proof.
  unfold AddComponentTypes. revert S.
  induction Ts as [| T Ts IH]; intros S; [done |].
  cbn [foldl]. destruct (IH (AddComponentType GetBitMask S T)) as (-> & -> & ->). done.
Qed.

(** A bit of the mask is set after the run exactly when it was set before
    or is a bit of one of the types. *)
Lemma AddComponentTypes_testbit (Ts : list EComponentType) (S : ISystem) (i : N) :
  N.testbit (mTypeBitMask (AddComponentTypes S Ts)) i
  = N.testbit (mTypeBitMask S) i || existsb (fun T => N.testbit (GetBitMask T) i) Ts.
Proof.
  unfold AddComponentTypes. revert S.
  induction Ts as [| T Ts IH]; intros S; cbn [foldl existsb].
  - by rewrite orb_false_r.
  - rewrite IH. cbn [AddComponentType mTypeBitMask]. unfold Bitset.bor.
    by rewrite N.lor_spec, orb_assoc.
Qed.

Lemma existsb_same_elements {A : Type} (f : A -> bool) (l k : list A) :
  (forall x, x ∈ l <-> x ∈ k) -> existsb f l = existsb f k.
Proof.
  intros Hsame. apply eq_true_iff_eq. rewrite !existsb_exists.
  split; intros (x & Hin & Hf); exists x; (split; [| done]).
  - apply list_elem_of_In. apply Hsame. by apply list_elem_of_In.
  - apply list_elem_of_In. apply Hsame. by apply list_elem_of_In.
Qed.

(** The system a run of [AddComponentType] calls leaves depends only on
    which types the run names: their order and their repetitions do not
    matter. *)
Theorem AddComponentTypes_same_types (S : ISystem) (Ts Ts' : list EComponentType) :
  (forall T, T ∈ Ts <-> T ∈ Ts') ->
  AddComponentTypes S Ts = AddComponentTypes S Ts'.
Proof.
  intros Hsame.
  destruct (AddComponentTypes_frame Ts S) as (Hw & Hs & Hi).
  destruct (AddComponentTypes_frame Ts' S) as (Hw' & Hs' & Hi').
  assert (mTypeBitMask (AddComponentTypes S Ts) = mTypeBitMask (AddComponentTypes S Ts')) as Hm.
  { apply N.bits_inj. intros i. rewrite !AddComponentTypes_testbit.
    f_equal. by apply existsb_same_elements. }
  destruct (AddComponentTypes S Ts), (AddComponentTypes S Ts'). simpl in *. congruence.
Qed.

(** After the run the mask holds every bit it held before and every bit
    of every type of the run. *)
Theorem AddComponentTypes_requires_each (S : ISystem) (Ts : list EComponentType) :
  Bitset.band (GetTypeBitMask (AddComponentTypes S Ts)) (GetTypeBitMask S) = GetTypeBitMask S
  /\ forall T, T ∈ Ts ->
       Bitset.band (GetTypeBitMask (AddComponentTypes S Ts)) (GetBitMask T) = GetBitMask T.
Proof.
  unfold GetTypeBitMask, Bitset.band. split.
  - apply N.bits_inj. intros i. rewrite N.land_spec, AddComponentTypes_testbit.
    destruct (N.testbit (mTypeBitMask S) i); [done | by rewrite andb_false_r].
  - intros T HT. apply N.bits_inj. intros i.
    rewrite N.land_spec, AddComponentTypes_testbit.
    destruct (N.testbit (GetBitMask T) i) eqn:Hbit; [| by rewrite andb_false_r].
    rewrite andb_true_r.
    assert (existsb (fun U => N.testbit (GetBitMask U) i) Ts = true) as ->.
    { apply existsb_exists. exists T. split; [by apply list_elem_of_In | done]. }
    by rewrite orb_true_r.
Qed.

End Masks.

Lemma AddComponentTypes_same_types_witness :
  AddComponentTypes SequentialBit (create 0) [0; 2; 0]
  = AddComponentTypes SequentialBit (create 0) [2; 0].
Proof.
  apply (AddComponentTypes_same_types SequentialBit (create 0) [0; 2; 0] [2; 0]).
  intros T. rewrite !elem_of_cons, elem_of_nil. tauto.
Defined.

End InterestMask.

(** ** Moving and comparing transforms *)

Module TransformMotion.

Import Transform.

Section Motion.

(** The vector and quaternion arithmetic [Translate] and [Rotate] use:
    [operator+=] on vectors, [operator*] of a quaternion and a vector, and
    [operator*=] on quaternions.  Like the types they are parameters. *)
Context {Vector3f FQuaternion : Type}.
Variable vec_add : Vector3f -> Vector3f -> Vector3f.
Variable quat_rotate : FQuaternion -> Vector3f -> Vector3f.
Variable quat_mul : FQuaternion -> FQuaternion -> FQuaternion.

Implicit Types (t : FTransform Vector3f FQuaternion).

(** [FTransform::Translate] (Transform.inl, lines 51-54):
    [mTranslation += (mRotation * Translation)]. *)
Definition Translate t (Translation : Vector3f) : FTransform Vector3f FQuaternion :=
  {| mTranslation := vec_add (mTranslation t) (quat_rotate (mRotation t) Translation);
     mRotation := mRotation t;
     mScale := mScale t;
     mParent := mParent t |}.

(** [FTransform::Rotate] (Transform.inl, lines 66-69):
    [mRotation *= Rotation]. *)
Definition Rotate t (Rotation : FQuaternion) : FTransform Vector3f FQuaternion :=
  {| mTranslation := mTranslation t;
     mRotation := quat_mul (mRotation t) Rotation;
     mScale := mScale t;
     mParent := mParent t |}.

(** [Translate] moves along the rotation the transform has at the time of
    the call.  So a rotation made before the translation turns the
    displacement and one made after does not, while both orders end with
    the same rotation, scale and parent; the two orders give the same
    transform exactly when the two displacements land on the same
    position. *)
Theorem Translate_after_Rotate t (Rotation : FQuaternion) (Translation : Vector3f) :
  GetPosition (Translate (Rotate t Rotation) Translation)
    = vec_add (GetPosition t) (quat_rotate (quat_mul (GetRotation t) Rotation) Translation)
  /\ GetPosition (Rotate (Translate t Translation) Rotation)
       = vec_add (GetPosition t) (quat_rotate (GetRotation t) Translation)
  /\ GetRotation (Translate (Rotate t Rotation) Translation)
       = GetRotation (Rotate (Translate t Translation) Rotation)
  /\ GetScale (Translate (Rotate t Rotation) Translation) = GetScale t
  /\ GetParent (Translate (Rotate t Rotation) Translation) = GetParent t
  /\ (Translate (Rotate t Rotation) Translation = Rotate (Translate t Translation) Rotation
      <-> vec_add (GetPosition t) (quat_rotate (quat_mul (GetRotation t) Rotation) Translation)
          = vec_add (GetPosition t) (quat_rotate (GetRotation t) Translation)).
Proof.
  unfold Translate, Rotate, GetPosition, GetRotation, GetScale, GetParent. cbn.
  split_and!; try reflexivity.
  split.
  - by intros [= ->].
  - by intros ->.
Qed.

End Motion.

Section Comparison.

Context {Vector3f FQuaternion : Type}.
Variable vec_eq vec_ne : Vector3f -> Vector3f -> bool.
Variable quat_eq quat_ne : FQuaternion -> FQuaternion -> bool.

Implicit Types (a b c : FTransform Vector3f FQuaternion).

(** Transforms with different parents are unequal for both operators,
    whatever the comparisons of vectors and quaternions answer. *)
Theorem different_parents_unequal a b :
  GetParent a <> GetParent b ->
  op_eq vec_eq quat_eq a b = false /\ op_ne vec_ne quat_ne a b = true.
Proof.
  intros Hne. unfold op_eq, op_ne, ptr_eq, ptr_ne.
  by rewrite bool_decide_eq_false_2.
Qed.

(** [operator==] on transforms is symmetric and transitive as soon as
    [operator==] on vectors and on quaternions is. *)
Theorem op_eq_symmetric_transitive a b c :
  (forall u v, vec_eq u v = vec_eq v u) ->
  (forall p q, quat_eq p q = quat_eq q p) ->
  (forall u v w, vec_eq u v = true -> vec_eq v w = true -> vec_eq u w = true) ->
  (forall p q r, quat_eq p q = true -> quat_eq q r = true -> quat_eq p r = true) ->
  op_eq vec_eq quat_eq a b = op_eq vec_eq quat_eq b a
  /\ (op_eq vec_eq quat_eq a b = true ->
      op_eq vec_eq quat_eq b c = true ->
      op_eq vec_eq quat_eq a c = true).
Proof.
  intros Hvsym Hqsym Hvtrans Hqtrans. split.
  - unfold op_eq, ptr_eq.
    rewrite (Hvsym (GetPosition a)), (Hvsym (GetScale a)), (Hqsym (GetRotation a)).
    do 3 f_equal. apply bool_decide_ext. split; congruence.
  - rewrite !op_eq_true. intros (Hp & Hpos & Hrot & Hsc) (Hp' & Hpos' & Hrot' & Hsc').
    split_and!; [congruence | by eapply Hvtrans | by eapply Hqtrans | by eapply Hvtrans].
Qed.

(** A transform equals itself exactly when its position, its rotation and
    its scale each compare equal to themselves. *)
Theorem op_eq_self a :
  op_eq vec_eq quat_eq a a = true
  <-> vec_eq (GetPosition a) (GetPosition a) = true
      /\ quat_eq (GetRotation a) (GetRotation a) = true
      /\ vec_eq (GetScale a) (GetScale a) = true.
Proof. rewrite op_eq_true. tauto. Qed.

End Comparison.

(** *** The properties over integer coordinates *)

Lemma different_parents_unequal_witness :
  op_eq Vec3_eq Quat_eq Origin (SetParent Origin (Some 4)) = false
  /\ op_ne Vec3_ne Quat_ne Origin (SetParent Origin (Some 4)) = true.
Proof.
  apply (different_parents_unequal Vec3_eq Vec3_ne Quat_eq Quat_ne Origin (SetParent Origin (Some 4))).
  discriminate.
Defined.

Lemma op_eq_symmetric_transitive_witness :
  op_eq Vec3_eq Quat_eq Origin (SetParent Origin (Some 4))
    = op_eq Vec3_eq Quat_eq (SetParent Origin (Some 4)) Origin
  /\ (op_eq Vec3_eq Quat_eq Origin (SetParent Origin (Some 4)) = true ->
      op_eq Vec3_eq Quat_eq (SetParent Origin (Some 4)) Origin = true ->
      op_eq Vec3_eq Quat_eq Origin Origin = true).
Proof.
  apply (op_eq_symmetric_transitive Vec3_eq Quat_eq Origin (SetParent Origin (Some 4)) Origin).
  - intros u v. unfold Vec3_eq. apply bool_decide_ext. split; congruence.
  - intros p q. unfold Quat_eq. apply bool_decide_ext. split; congruence.
  - intros u v w. unfold Vec3_eq. rewrite !bool_decide_eq_true. congruence.
  - intros p q r. unfold Quat_eq. rewrite !bool_decide_eq_true. congruence.
Defined.

(** A quarter turn about the vertical axis, as a map on integer vectors,
    shows that the order of [Rotate] and [Translate] matters. *)
Definition Turns : Type := nat.

Definition turn (n : Turns) (v : Vec3) : Vec3 :=
  Nat.iter n (fun '(x, y, z) => (- y, x, z)%Z) v.

Definition Vec3_add (u v : Vec3) : Vec3 :=
  let '(a, b, c) := u in let '(x, y, z) := v in (a + x, b + y, c + z)%Z.

Example rotate_then_translate_differs :
  let t := {| mTranslation := (0, 0, 0)%Z; mRotation := 0;
              mScale := (1, 1, 1)%Z; mParent := None |} in
  GetPosition (Translate Vec3_add turn (Rotate Nat.add t 1) (1, 0, 0)%Z) = (0, 1, 0)%Z
  /\ GetPosition (Rotate Nat.add (Translate Vec3_add turn t (1, 0, 0)%Z) 1) = (1, 0, 0)%Z.
Proof. vm_compute. done. Qed.

End TransformMotion.
